(** * daart.eval: evaluation functions of the daart package

    A shallow embedding of [src/daart/eval.py]:
    [get_precision_recall], [int_over_union], [run_lengths] and
    [load_metrics_csv_as_df], together with the parts of numpy, itertools,
    scikit-learn and pandas those functions call.

    Conventions.
    - A one-dimensional integer array is a [list Z]; where the code
      computes in the array's fixed-width integer dtype, the dtype is a
      parameter and the wrap-around is written out.
    - A Python exception is the [Raise] branch of [result]; the exception
      class is recorded.
    - A float is carried as the exact rational ([Q]) that it rounds; the
      IEEE special values the code can produce or test for ([nan], the
      infinities) are constructors of [float64] of their own.  Rounding is
      not modelled.  The quotient of two counts is a single correctly
      rounded operation; of a float that comes out of several rounded
      operations (the f1 score) the properties below state only what
      rounding cannot change: being [nan], lying between 0 and 1, being
      equal to 1.
    - A [dict] is a [gmap].
    - Memory is unbounded: building an array or a dict never fails for lack
      of space. *)

From Stdlib Require Import QArith Lqa.
From stdpp Require Import gmap strings list fin_maps sorting.

Close Scope Q_scope.
Local Open Scope Z_scope.

(** ** Exceptions *)

Inductive exn : Type :=
  | AssertionError
  | ValueError
  | KeyError
  | IndexError
  | OverflowError.

Inductive result (A : Type) : Type :=
  | Ok (a : A)
  | Raise (e : exn).
Arguments Ok {A} a.
Arguments Raise {A} e.

#[global] Instance result_ret : MRet result := λ A a, Ok a.
#[global] Instance result_bind : MBind result := λ A B f r,
  match r with
  | Ok a => f a
  | Raise e => Raise e
  end.

Definition raises {A} (r : result A) : Prop := ∃ e, r = Raise e.

(** A [for] loop whose body may raise: the state is threaded from left to
    right and the first exception ends the loop. *)
Fixpoint for_each {A S : Type} (body : S → A → result S) (s : S) (l : list A)
  : result S :=
  match l with
  | [] => Ok s
  | x :: l' => s' ← body s x; for_each body s' l'
  end.

(** [assert c] *)
Definition py_assert (c : bool) : result unit :=
  if c then Ok () else Raise AssertionError.

(** ** numpy on one-dimensional integer arrays *)

Module np.

(** The integer dtypes of an array.  An array built from a Python list of
    ints has the platform integer, [int64]. *)
Inductive int_dtype : Type :=
  | int8 | int16 | int32 | int64
  | uint8 | uint16 | uint32 | uint64.

Definition bits (dt : int_dtype) : Z :=
  match dt with
  | int8 | uint8 => 8
  | int16 | uint16 => 16
  | int32 | uint32 => 32
  | int64 | uint64 => 64
  end.

Definition signed (dt : int_dtype) : bool :=
  match dt with
  | int8 | int16 | int32 | int64 => true
  | uint8 | uint16 | uint32 | uint64 => false
  end.

(** [np.iinfo(dt).min] and [np.iinfo(dt).max]. *)
Definition iinfo_min (dt : int_dtype) : Z :=
  if signed dt then - 2 ^ (bits dt - 1) else 0.
Definition iinfo_max (dt : int_dtype) : Z :=
  if signed dt then 2 ^ (bits dt - 1) - 1 else 2 ^ bits dt - 1.

(** [x + y] on integers of dtype [dt], where [y] may be a Python int that
    fits the dtype (under NumPy 2's promotion it takes the dtype of [x]):
    the sum stays in the dtype, and a sum outside its range wraps around
    modulo [2 ^ bits] (numpy warns and does not raise). *)
Definition add (dt : int_dtype) (x y : Z) : Z :=
  (x + y - iinfo_min dt) mod 2 ^ bits dt + iinfo_min dt.

(** [np.max(a)]: a [ValueError] on an empty array. *)
Definition max (a : list Z) : result Z :=
  match a with
  | [] => Raise ValueError
  | x :: a' => Ok (foldl Z.max x a')
  end.

(** [np.arange(lo, hi)] for integer bounds: empty when [hi <= lo]. *)
Definition arange (lo hi : Z) : list Z :=
  (λ i : nat, lo + Z.of_nat i) <$> seq 0 (Z.to_nat (hi - lo)).

(** [np.unique(a)]: the distinct values, in increasing order. *)
Fixpoint insert_sorted (x : Z) (l : list Z) : list Z :=
  match l with
  | [] => [x]
  | y :: l' =>
      if decide (x < y) then x :: l
      else if decide (x = y) then l
      else y :: insert_sorted x l'
  end.

Definition unique (a : list Z) : list Z := foldr insert_sorted [] a.

(** [a == v] ([np.equal]) and [a != v] ([np.not_equal]) against a scalar. *)
Definition equal (a : list Z) (v : Z) : list bool := (λ x, bool_decide (x = v)) <$> a.
Definition not_equal (a : list Z) (v : Z) : list bool := (λ x, bool_decide (x ≠ v)) <$> a.

(** Binary element-wise operation on two one-dimensional arrays, with
    numpy's broadcasting: equal lengths pair up, a length-one array is
    stretched, anything else is a [ValueError]. *)
Definition broadcast {A B C} (f : A → B → C) (a : list A) (b : list B)
  : result (list C) :=
  if decide (length a = length b) then Ok (zip_with f a b)
  else match a, b with
       | [x], _ => Ok (f x <$> b)
       | _, [y] => Ok ((λ x, f x y) <$> a)
       | _, _ => Raise ValueError
       end.

(** [np.sum] of a boolean array: the number of [True] entries. *)
Definition sum (a : list bool) : Z := Z.of_nat (length (filter Is_true a)).

(** [np.where(mask)[0]]: the positions where the mask holds, increasing. *)
Definition where_true (mask : list bool) : list nat :=
  filter (λ i, mask !! i = Some true) (seq 0 (length mask)).

(** [a[idxs]] for an array of positions: the entries at those positions,
    in the order of [idxs]; an [IndexError] when a position is out of
    range. *)
Fixpoint take {A} (a : list A) (idxs : list nat) : result (list A) :=
  match idxs with
  | [] => Ok []
  | i :: idxs' =>
      match a !! i with
      | Some x => rest ← take a idxs'; Ok (x :: rest)
      | None => Raise IndexError
      end
  end.

End np.

(** ** [run_lengths] (eval.py, lines 90-114) *)

(** [itertools.groupby(array)] with each group replaced by its length, as
    the loop body does with [len(list(iterable))]: the iterator keeps the
    current key and counts while the next element equals it, and emits the
    group when the key changes or the input ends. *)
Fixpoint groupby_from (key : Z) (n : nat) (a : list Z) : list (Z * nat) :=
  match a with
  | [] => [(key, n)]
  | x :: a' =>
      if decide (x = key) then groupby_from key (S n) a'
      else (key, n) :: groupby_from x 1 a'
  end.

Definition groupby (a : list Z) : list (Z * nat) :=
  match a with
  | [] => []
  | x :: a' => groupby_from x 1 a'
  end.

(** [seqs[key].append(n)]: a [KeyError] when the key is absent. *)
Definition dict_append (seqs : gmap Z (list nat)) (key : Z) (n : nat)
  : result (gmap Z (list nat)) :=
  match seqs !! key with
  | Some l => Ok (<[key := l ++ [n]]> seqs)
  | None => Raise KeyError
  end.

(** [{k: [] for k in ks}]: every key gets a list of its own. *)
Definition dict_of_empty_lists (ks : list Z) : gmap Z (list nat) :=
  list_to_map ((λ k, (k, [])) <$> ks).

(** [dt] is the integer dtype of [array]: [np.max(array)] is a scalar of
    that dtype and [np.max(array) + 1] is computed in it. *)
Definition run_lengths (dt : np.int_dtype) (array : list Z)
  : result (gmap Z (list nat)) :=
  m ← np.max array;
  let seqs := dict_of_empty_lists (np.arange 0 (np.add dt m 1)) in
  for_each (λ seqs '(key, n), dict_append seqs key n) seqs (groupby array).

(** *** Vocabulary for the statements about [run_lengths] *)

(** Every entry of the array is a value of dtype [dt]. *)
Definition has_dtype (dt : np.int_dtype) (a : list Z) : Prop :=
  Forall (λ x, np.iinfo_min dt ≤ x ≤ np.iinfo_max dt) a.

(** The run lengths of value [v] among the groups, in order. *)
Definition lengths_of (v : Z) (gs : list (Z * nat)) : list nat :=
  (filter (λ g, g.1 = v) gs).*2.

(** [gs] splits [a] into maximal runs: expanding the groups gives back [a],
    no group is empty, and neighbouring groups have different keys. *)
Definition expand (gs : list (Z * nat)) : list Z :=
  gs ≫= λ g, replicate g.2 g.1.

Fixpoint keys_alternate (gs : list (Z * nat)) : Prop :=
  match gs with
  | g :: ((g' :: _) as gs') => g.1 ≠ g'.1 ∧ keys_alternate gs'
  | _ => True
  end.

Definition maximal_runs (gs : list (Z * nat)) (a : list Z) : Prop :=
  expand gs = a ∧ Forall (λ g, (0 < g.2)%nat) gs ∧ keys_alternate gs.

(** Sum of all run lengths over all keys of the mapping. *)
Definition total_runs (seqs : gmap Z (list nat)) : nat :=
  map_fold (λ _ l acc, (sum_list l + acc)%nat) 0%nat seqs.

(** ** Floats *)

(** A numpy [float64] up to rounding: an exact rational, an infinity, or
    [nan].  Signed zeros are not distinguished. *)
Inductive float64 : Type :=
  | Real (q : Q)
  | Inf (negative : bool)
  | NaN.

Module fl.

Definition negative (q : Q) : bool := bool_decide (Qnum q < 0).
Definition zero (q : Q) : bool := bool_decide (Qnum q = 0).

(** [x == 0]: false on [nan]. *)
Definition is_zero (x : float64) : bool :=
  match x with
  | Real q => zero q
  | _ => false
  end.

(** [x == y] on floats: false as soon as one side is [nan]. *)
Definition eqb (x y : float64) : bool :=
  match x, y with
  | Real p, Real q => Qeq_bool p q
  | Inf a, Inf b => bool_decide (a = b)
  | _, _ => false
  end.

Definition mul (x y : float64) : float64 :=
  match x, y with
  | NaN, _ | _, NaN => NaN
  | Real p, Real q => Real (p * q)
  | Inf a, Inf b => Inf (xorb a b)
  | Inf a, Real q | Real q, Inf a =>
      if zero q then NaN else Inf (xorb a (negative q))
  end.

Definition add (x y : float64) : float64 :=
  match x, y with
  | NaN, _ | _, NaN => NaN
  | Real p, Real q => Real (p + q)
  | Inf a, Inf b => if bool_decide (a = b) then Inf a else NaN
  | Inf a, Real _ | Real _, Inf a => Inf a
  end.

(** Division: [0/0] is [nan] and [x/0] an infinity, as numpy computes
    them (with a warning, not an exception). *)
Definition div (x y : float64) : float64 :=
  match x, y with
  | NaN, _ | _, NaN => NaN
  | Real p, Real q =>
      if zero q then (if zero p then NaN else Inf (negative p))
      else Real (p / q)
  | Real _, Inf _ => Real 0
  | Inf a, Real q => Inf (xorb a (negative q))
  | Inf _, Inf _ => NaN
  end.

Definition of_int (z : Z) : float64 := Real (inject_Z z).

(** [int(x)]: truncation toward zero; [nan] is a [ValueError] and an
    infinity an [OverflowError]. *)
Definition to_int (x : float64) : result Z :=
  match x with
  | Real q => Ok (Z.quot (Qnum q) (Z.pos (Qden q)))
  | Inf _ => Raise OverflowError
  | NaN => Raise ValueError
  end.

(** A real number between 0 and 1, or "undefined". *)
Definition unit_or_nan (x : float64) : Prop :=
  match x with
  | Real q => (0 <= q)%Q ∧ (q <= 1)%Q
  | Inf _ => False
  | NaN => True
  end.

End fl.

(** [a / b] on numpy integers (true division). *)
Definition true_divide (a b : Z) : float64 := fl.div (fl.of_int a) (fl.of_int b).

(** ** scikit-learn's per-label precision and recall

    [precision_score] and [recall_score] as their documentation defines
    them for [average=None]: for each requested label, the number of
    positions where the label is both true and predicted, divided by the
    number of positions where it is predicted (precision) or true
    (recall); [zero_division=0] sets the score to 0 when the denominator
    is zero.  The input validation of both functions rejects arrays of
    different lengths, and arrays without any sample, with a [ValueError]
    (releases that lack the second check score an empty selection as all
    zeros; the model follows the validation). *)

Module sklearn.

(** Positions where the label is both true and predicted, where it is
    predicted, and where it is true. *)
Definition tp_sum (y_true y_pred : list Z) (l : Z) : Z :=
  Z.of_nat (length (filter (λ tp, tp.1 = l ∧ tp.2 = l) (zip y_true y_pred))).
Definition pred_sum (y_pred : list Z) (l : Z) : Z :=
  Z.of_nat (length (filter (λ p, p = l) y_pred)).
Definition true_sum (y_true : list Z) (l : Z) : Z :=
  Z.of_nat (length (filter (λ t, t = l) y_true)).

(** [_prf_divide] with [zero_division=0]: a zero denominator gives 0. *)
Definition prf_divide (num den : Z) : float64 :=
  if decide (den = 0) then Real 0 else true_divide num den.

(** The validation of the two label arrays. *)
Definition check_targets (y_true y_pred : list Z) : result unit :=
  if decide (length y_true = length y_pred)
  then match y_true with
       | [] => Raise ValueError
       | _ :: _ => Ok ()
       end
  else Raise ValueError.

(** [precision_score(y_true, y_pred, labels=labels, average=None,
    zero_division=0)]: one entry per label, in the order of [labels]. *)
Definition precision_score (y_true y_pred labels : list Z) : result (list float64) :=
  _ ← check_targets y_true y_pred;
  Ok ((λ l, prf_divide (tp_sum y_true y_pred l) (pred_sum y_pred l)) <$> labels).

(** [recall_score] with the same arguments. *)
Definition recall_score (y_true y_pred labels : list Z) : result (list float64) :=
  _ ← check_targets y_true y_pred;
  Ok ((λ l, prf_divide (tp_sum y_true y_pred l) (true_sum y_true l)) <$> labels).

End sklearn.

(** ** [get_precision_recall] (eval.py, lines 14-62) *)

Record prf : Type := {
  precision : list float64;
  recall : list float64;
  f1 : list float64
}.

(** Body of the loop that replaces 0s with NaNs: at index [n], when both
    entries compare equal to zero, both are overwritten. *)
Definition nan_step (pr : list float64 * list float64) (n : nat)
  : result (list float64 * list float64) :=
  match pr.1 !! n, pr.2 !! n with
  | Some p, Some r =>
      if fl.is_zero p && fl.is_zero r
      then Ok (<[n := NaN]> pr.1, <[n := NaN]> pr.2)
      else Ok pr
  | _, _ => Raise IndexError
  end.

(** [2 * p * r / (p + r)] on arrays.  The source rounds after each of the
    four operations; the model carries the exact value. *)
Definition f1_score (p r : list float64) : result (list float64) :=
  let two_p := fl.mul (Real 2) <$> p in
  num ← np.broadcast fl.mul two_p r;
  den ← np.broadcast fl.add p r;
  np.broadcast fl.div num den.

(** The two arrays are numpy arrays: the code reads their [.shape] and
    indexes them with an array of positions. *)
Definition get_precision_recall (true_classes pred_classes : list Z)
    (background : Z) (n_classes : option Z) : result prf :=
  _ ← py_assert (bool_decide (length true_classes = length pred_classes));
  _ ← py_assert (bool_decide (background = 0));
  let obs_idxs := np.where_true (np.not_equal true_classes background) in
  y_true ← np.take true_classes obs_idxs;
  let n_classes :=
    match n_classes with
    | Some n => n
    | None => Z.of_nat (length (np.unique y_true))
    end in
  y_pred ← np.take pred_classes obs_idxs;
  let labels := np.arange 1 (n_classes + 1) in
  precision ← sklearn.precision_score y_true y_pred labels;
  recall ← sklearn.recall_score y_true y_pred labels;
  pr ← for_each nan_step (precision, recall) (seq 0 (length precision));
  f1 ← f1_score pr.1 pr.2;
  Ok {| precision := pr.1; recall := pr.2; f1 := f1 |}.

(** *** Vocabulary for the statements about [get_precision_recall] *)

(** The pairs (true label, predicted label) at the positions whose true
    label is not the background. *)
Definition observed (bg : Z) (t p : list Z) : list (Z * Z) :=
  filter (λ tp, tp.1 ≠ bg) (zip t p).

(** What the replacement loop does to one (precision, recall) pair. *)
Definition nan_pair (p r : float64) : float64 * float64 :=
  if fl.is_zero p && fl.is_zero r then (NaN, NaN) else (p, r).

(** Per-class counts over the two arrays: positions where class [c] is
    both true and predicted, positions with a non-background true label
    where [c] is predicted, and positions whose true label is [c] (the
    ground-truth support). *)
Definition true_positives (true_classes pred_classes : list Z) (c : Z) : nat :=
  length (filter (λ tp, tp.1 = c ∧ tp.2 = c) (zip true_classes pred_classes)).
Definition predicted (true_classes pred_classes : list Z) (c : Z) : nat :=
  length (filter (λ tp, tp.1 ≠ 0 ∧ tp.2 = c) (zip true_classes pred_classes)).
Definition support (true_classes : list Z) (c : Z) : nat :=
  length (filter (λ t, t = c) true_classes).

(** The scores of class [c] written with these counts: "undefined" when the
    class has no true positive, the usual ratios otherwise. *)
Definition ratio (n d : nat) : Q := inject_Z (Z.of_nat n) / inject_Z (Z.of_nat d).

Definition class_precision (true_classes pred_classes : list Z) (c : Z) : float64 :=
  let tp := true_positives true_classes pred_classes c in
  if decide (tp = 0%nat) then NaN
  else Real (ratio tp (predicted true_classes pred_classes c)).

Definition class_recall (true_classes pred_classes : list Z) (c : Z) : float64 :=
  let tp := true_positives true_classes pred_classes c in
  if decide (tp = 0%nat) then NaN
  else Real (ratio tp (support true_classes c)).

Definition class_f1 (true_classes pred_classes : list Z) (c : Z) : float64 :=
  let tp := true_positives true_classes pred_classes c in
  if decide (tp = 0%nat) then NaN
  else
    let p := ratio tp (predicted true_classes pred_classes c) in
    let r := ratio tp (support true_classes c) in
    Real (2 * p * r / (p + r)).

(** The number of classes the call works with: [n_classes] when given,
    else the number of distinct non-background values of the true array. *)
Definition class_count (true_classes : list Z) (n_classes : option Z) : nat :=
  match n_classes with
  | Some n => Z.to_nat n
  | None => length (np.unique (filter (λ t, t ≠ 0) true_classes))
  end.

(** The labels scored by the call, [np.arange(1, n_classes + 1)]. *)
Definition class_labels (true_classes : list Z) (n_classes : option Z) : list Z :=
  np.arange 1 (match n_classes with
               | Some n => n
               | None => Z.of_nat (length (np.unique (filter (λ t, t ≠ 0) true_classes)))
               end + 1).

(** ** [int_over_union] (eval.py, lines 65-87) *)

Definition int_over_union (array1 array2 : list Z) : result (gmap Z float64) :=
  let vals := np.unique (np.unique array1 ++ np.unique array2) in
  let iou : gmap Z float64 := list_to_map ((λ val, (val, NaN)) <$> vals) in
  for_each (λ iou val,
    both ← np.broadcast andb (np.equal array1 val) (np.equal array2 val);
    let intersection := np.sum both in
    either ← np.broadcast orb (np.equal array1 val) (np.equal array2 val);
    let union := np.sum either in
    Ok (<[val := true_divide intersection union]> iou)) iou vals.

(** *** Vocabulary for the statements about [int_over_union] *)

(** Count of positions where both arrays equal [v], and where at least one
    of them does; [zip] pairs the entries at the same position. *)
Definition count_both (v : Z) (a b : list Z) : nat :=
  length (filter (λ xy, xy.1 = v ∧ xy.2 = v) (zip a b)).
Definition count_either (v : Z) (a b : list Z) : nat :=
  length (filter (λ xy, xy.1 = v ∨ xy.2 = v) (zip a b)).

(** ** [load_metrics_csv_as_df] (eval.py, lines 177-226) *)

(** The wide table that [pd.read_csv] returns for a metrics log: column
    names and numeric rows.  A row holds one cell per column; a missing
    trailing cell reads as [nan], which is how the parser fills a short
    line. *)
Record DataFrame : Type := {
  df_columns : list string;
  df_rows : list (list float64)
}.

(** A row as [iterrows] yields it: cells labelled by the column names. *)
Record Series : Type := {
  s_index : list string;
  s_values : list float64
}.

Definition iterrows (df : DataFrame) : list Series :=
  (λ cells, {| s_index := df_columns df; s_values := cells |}) <$> df_rows df.

(** [row[label]]: a [KeyError] when no column has that name. *)
Definition loc (row : Series) (label : string) : result float64 :=
  match list_find (λ c, c = label) (s_index row) with
  | Some (j, _) => Ok (default NaN (s_values row !! j))
  | None => Raise KeyError
  end.

(** A Python value in the [dataset] column of the output. *)
Inductive pyval : Type :=
  | PyStr (s : string)
  | PyFloat (x : float64).

(** [l[i]] on a Python list: negative positions count from the end, and a
    position outside the list is an [IndexError]. *)
Definition list_getitem {A} (l : list A) (i : Z) : result A :=
  let j := if decide (i < 0) then Z.of_nat (length l) + i else i in
  if decide (j < 0) then Raise IndexError
  else match l !! Z.to_nat j with
       | Some x => Ok x
       | None => Raise IndexError
       end.

(** One row of the long table. *)
Record long_row : Type := {
  dataset : pyval;
  epoch : float64;
  dtype : string;
  loss : string;
  val : float64
}.

(** [pd.concat(frames)] of one-row frames: a [ValueError] when there is
    nothing to concatenate. *)
Definition pd_concat (frames : list long_row) : result (list long_row) :=
  match frames with
  | [] => Raise ValueError
  | _ => Ok frames
  end.

(** The dataset label of a source row. *)
Definition dataset_label (expt_ids : option (list string)) (row : Series)
  : result pyval :=
  d ← loc row "dataset";
  if fl.eqb d (Real (-1)) then Ok (PyStr "all")
  else match expt_ids with
       | Some ids =>
           i ← fl.to_int d;
           name ← list_getitem ids i;
           Ok (PyStr name)
       | None => d' ← loc row "dataset"; Ok (PyFloat d')
       end.

(** Body of one of the three metric loops: append a record made of the
    loop's dictionary ([dataset], [epoch], [dtype]) and the value of column
    [prefix ++ metric]. *)
Definition emit (row : Series) (ds : pyval) (e : float64) (split prefix : string)
    (metrics_df : list long_row) (metric : string) : result (list long_row) :=
  v ← loc row (prefix +:+ metric);
  Ok (metrics_df ++
      [{| dataset := ds; epoch := e; dtype := split; loss := metric; val := v |}]).

(** Body of the loop over the rows of the log.  Each dictionary reads
    [row['epoch']] before its loop starts. *)
Definition row_step (metrics_list : list string) (expt_ids : option (list string))
    (test : bool) (metrics_df : list long_row) (row : Series)
  : result (list long_row) :=
  ds ← dataset_label expt_ids row;
  if test then
    e ← loc row "epoch";
    for_each (emit row ds e "test" "test_") metrics_df metrics_list
  else
    e ← loc row "epoch";
    metrics_df ← for_each (emit row ds e "val" "val_") metrics_df metrics_list;
    e' ← loc row "epoch";
    for_each (emit row ds e' "train" "tr_") metrics_df metrics_list.

Section Loader.

(** The file system seen through [pd.read_csv]: the table stored under a
    path, or the exception raised for it. *)
Variable read_csv : string → result DataFrame.

Definition load_metrics_csv_as_df (metric_file : string)
    (metrics_list : list string) (expt_ids : option (list string))
    (test : bool) : result (list long_row) :=
  metrics ← read_csv metric_file;
  metrics_df ← for_each (row_step metrics_list expt_ids test) [] (iterrows metrics);
  pd_concat metrics_df.

End Loader.

(** *** Vocabulary for the statements about [load_metrics_csv_as_df] *)

(** A cell of the wide table that the loader reads for a metric: the source
    row, the split it is emitted under, and the column prefix. *)
Record cell_ref : Type := {
  src_row : Series;
  src_split : string;
  src_prefix : string;
  src_metric : string
}.

(** The cells read from one source row, in the order the loops visit them:
    in test mode one per metric; otherwise one "val" cell per metric, then
    one "train" cell per metric. *)
Definition row_entries (test : bool) (metrics_list : list string) (row : Series)
  : list cell_ref :=
  if test then
    (λ m, {| src_row := row; src_split := "test"; src_prefix := "test_";
             src_metric := m |}) <$> metrics_list
  else
    ((λ m, {| src_row := row; src_split := "val"; src_prefix := "val_";
              src_metric := m |}) <$> metrics_list)
    ++ ((λ m, {| src_row := row; src_split := "train"; src_prefix := "tr_";
                 src_metric := m |}) <$> metrics_list).

Definition wide_entries (test : bool) (metrics_list : list string)
    (rows : list Series) : list cell_ref :=
  rows ≫= row_entries test metrics_list.

(** The long-table record of a cell, when every lookup succeeds: the source
    row's dataset label and epoch, the split, the metric name, and the value
    of column [prefix ++ metric]. *)
Definition record_of (expt_ids : option (list string)) (c : cell_ref)
  : result long_row :=
  ds ← dataset_label expt_ids (src_row c);
  e ← loc (src_row c) "epoch";
  v ← loc (src_row c) (src_prefix c +:+ src_metric c);
  Ok {| dataset := ds; epoch := e; dtype := src_split c;
        loss := src_metric c; val := v |}.

(** The record appended for one metric by a loop that runs with dataset
    label [ds], epoch [e], split tag [split] and column prefix [prefix]. *)
Definition emitted (row : Series) (ds : pyval) (e : float64) (split prefix : string)
    (r : long_row) (metric : string) : Prop :=
  ∃ v, loc row (prefix +:+ metric) = Ok v
       ∧ r = {| dataset := ds; epoch := e; dtype := split; loss := metric; val := v |}.

(** The header of a row can be read: its dataset label and its epoch. *)
Definition readable (expt_ids : option (list string)) (row : Series) : Prop :=
  ∃ ds e, dataset_label expt_ids row = Ok ds ∧ loc row "epoch" = Ok e.

(** Record [r] of the long table was made from cell [c] of the wide one. *)
Definition made_from (expt_ids : option (list string)) (r : long_row) (c : cell_ref)
  : Prop :=
  dataset_label expt_ids (src_row c) = Ok (dataset r)
  ∧ loc (src_row c) "epoch" = Ok (epoch r)
  ∧ dtype r = src_split c
  ∧ loss r = src_metric c
  ∧ loc (src_row c) (src_prefix c +:+ src_metric c) = Ok (val r).

(** The position of the first column named [label]. *)
Fixpoint column_index (label : string) (columns : list string) : option nat :=
  match columns with
  | [] => None
  | c :: columns' =>
      if decide (c = label) then Some 0%nat else S <$> column_index label columns'
  end.

(** The cell that a raw row of the wide table holds under the column named
    [label] ([nan] where the row is too short, or has no such column). *)
Definition cell (df : DataFrame) (cells : list float64) (label : string) : float64 :=
  default NaN (j ← column_index label (df_columns df); cells !! j).

(** The validation values of the wide table keyed by epoch and metric: for
    each raw row, in order, and each metric, in order, the row's [epoch]
    cell, the metric name and the row's [val_<metric>] cell. *)
Definition val_table (df : DataFrame) (metrics_list : list string)
  : list (float64 * string * float64) :=
  df_rows df ≫= λ cells,
    (λ m, (cell df cells "epoch", m, cell df cells ("val_" +:+ m))) <$> metrics_list.

(** [df[df.dtype == split]] on the long table. *)
Definition with_dtype (split : string) (df : list long_row) : list long_row :=
  filter (λ r, dtype r = split) df.

(** The (source row, metric) pairs of the wide table, row by row. *)
Definition val_entries (metrics_list : list string) (rows : list Series)
  : list (Series * string) :=
  rows ≫= λ row, (λ m, (row, m)) <$> metrics_list.

(** No two rows of the long table share their dataset and metric. *)
Definition one_row_per_dataset_metric (df : list long_row) : Prop :=
  ∀ i j r1 r2, df !! i = Some r1 → df !! j = Some r2 →
    dataset r1 = dataset r2 → loss r1 = loss r2 → i = j.

(** A log with two epochs of one dataset and the test column of one metric. *)
Definition two_epoch_log : DataFrame :=
  {| df_columns := ["epoch"; "dataset"; "test_loss"];
     df_rows := [[Real 0; Real 0; Real (1 # 2)]; [Real 1; Real 0; Real (1 # 4)]] |}.

(** A log with three epochs and the train and validation columns of two
    metrics. *)
Definition three_epoch_log : DataFrame :=
  {| df_columns := ["epoch"; "dataset"; "tr_loss"; "val_loss"; "tr_fc"; "val_fc"];
     df_rows := [[Real 0; Real (-1); Real 9; Real 8; Real (1 # 2); Real (1 # 3)];
                 [Real 1; Real (-1); Real 7; Real 6; Real (2 # 3); Real (1 # 2)];
                 [Real 2; Real (-1); Real 5; Real 4; Real (3 # 4); Real (3 # 5)]] |}.

(** A log with the same columns and no row. *)
Definition empty_log : DataFrame :=
  {| df_columns := ["epoch"; "dataset"; "tr_loss"; "val_loss"; "tr_fc"; "val_fc"];
     df_rows := [] |}.

(** ** [plot_training_curves] (eval.py, lines 117-174) *)

(** Comparisons used by the query: [x > y] (false as soon as one side is
    [nan]) and [pd.isna]. *)
Definition float_gt (x y : float64) : bool :=
  match x, y with
  | Real p, Real q => negb (Qle_bool p q)
  | Inf a, Inf b => negb a && b
  | Inf a, Real _ => negb a
  | Real _, Inf b => b
  | _, _ => false
  end.

Definition isna (x : float64) : bool :=
  match x with
  | NaN => true
  | _ => false
  end.

(** [pd.concat(frames, sort=False)] of long tables: a [ValueError] when
    the list is empty. *)
Definition pd_concat_frames (frames : list (list long_row)) : result (list long_row) :=
  match frames with
  | [] => Raise ValueError
  | _ => Ok (concat frames)
  end.

(** The calls the function makes to seaborn, matplotlib and [daart.io], in
    the order it makes them.  [FacetGrid data hue] stands for
    [sns.FacetGrid(data, col='loss', col_wrap=2, hue=hue, sharey=False,
    height=4)] followed by [.map(plt.plot, 'epoch', 'val').add_legend()],
    and [SaveFig file format] for [g.savefig(file, dpi=300,
    format=format)]. *)
Inductive call : Type :=
  | SetStyle (style : string)
  | SetContext (context : string)
  | FacetGrid (data : list long_row) (hue : option string)
  | MakeDir (save_file : string)
  | SaveFig (file : string) (format : string)
  | Close.

(** A computation that makes library calls: the calls made so far, and the
    value or the exception it ends with.  An exception keeps the calls made
    before it. *)
Record traced (A : Type) : Type := Traced {
  calls : list call;
  outcome : result A
}.
Arguments Traced {A} calls outcome.
Arguments calls {A} t.
Arguments outcome {A} t.

#[global] Instance traced_ret : MRet traced := λ A a, Traced [] (Ok a).
#[global] Instance traced_bind : MBind traced := λ A B f t,
  match outcome t with
  | Ok a => Traced (calls t ++ calls (f a)) (outcome (f a))
  | Raise e => Traced (calls t) (Raise e)
  end.

(** A step that makes no library call, and a library call with its
    outcome. *)
Definition pure_step {A} (r : result A) : traced A := Traced [] r.
Definition invoke (c : call) (r : result unit) : traced unit := Traced [c] r.

(** The rows kept by the query: epoch above 10, a value that is not
    missing, and the requested split. *)
Definition queried (split : string) (r : long_row) : bool :=
  float_gt (epoch r) (Real 10) && negb (isna (val r)) && bool_decide (dtype r = split).

(** [hue]: the runs are told apart by dataset when more than one
    experiment id is given. *)
Definition hue_of (expt_ids : option (list string)) : option string :=
  match expt_ids with
  | Some ids => if decide (1 < length ids)%nat then Some "dataset" else None
  | None => None
  end.

Definition plot_metrics_list : list string :=
  ["loss"; "loss_weak"; "loss_strong"; "loss_pred"; "fc"].

Section Plot.

(** The file system behind [pd.read_csv], and the outcomes of the library
    calls that can fail: building the grid of panels, creating the
    directory, writing the image. *)
Variable read_csv : string → result DataFrame.
Variable facet_grid : list long_row → option string → result unit.
Variable make_dir_if_not_exists : string → result unit.
Variable savefig : string → string → result unit.

Definition plot_training_curves (metrics_file split : string)
    (expt_ids : option (list string)) (save_file : option string)
    (format : string) : traced unit :=
  let metrics_list := plot_metrics_list in
  let metrics_dfs : list (list long_row) := [] in
  df ← pure_step (load_metrics_csv_as_df read_csv metrics_file metrics_list
                    expt_ids false);
  let metrics_dfs := metrics_dfs ++ [df] in
  metrics_df ← pure_step (pd_concat_frames metrics_dfs);
  let hue := hue_of expt_ids in
  _ ← invoke (SetStyle "white") (Ok ());
  _ ← invoke (SetContext "talk") (Ok ());
  let data_queried := filter (λ r, queried split r = true) metrics_df in
  _ ← invoke (FacetGrid data_queried hue) (facet_grid data_queried hue);
  _ ← match save_file with
      | Some save_file =>
          _ ← invoke (MakeDir save_file) (make_dir_if_not_exists save_file);
          invoke (SaveFig (save_file +:+ "." +:+ format) format)
                 (savefig (save_file +:+ "." +:+ format) format)
      | None => mret ()
      end;
  invoke Close (Ok ()).

End Plot.

(** The calls of a run in which nothing fails. *)
Definition full_calls (data : list long_row) (hue : option string)
    (save_file : option string) (format : string) : list call :=
  [SetStyle "white"; SetContext "talk"; FacetGrid data hue]
  ++ match save_file with
     | Some save_file =>
         [MakeDir save_file; SaveFig (save_file +:+ "." +:+ format) format]
     | None => []
     end
  ++ [Close].

(** A log with the train and validation columns of the five plotted
    metrics, at epochs 10 and 11; one validation value of epoch 11 is
    missing. *)
Definition plotted_log : DataFrame :=
  {| df_columns := ["epoch"; "dataset";
                    "tr_loss"; "val_loss"; "tr_loss_weak"; "val_loss_weak";
                    "tr_loss_strong"; "val_loss_strong";
                    "tr_loss_pred"; "val_loss_pred"; "tr_fc"; "val_fc"];
     df_rows := [[Real 10; Real (-1); Real 9; Real 8; Real 7; Real 6;
                  Real 5; Real 4; Real 3; Real 2; Real (1 # 2); Real (1 # 3)];
                 [Real 11; Real (-1); Real 8; Real 7; Real 6; NaN;
                  Real 4; Real 3; Real 2; Real 1; Real (2 # 3); Real (1 # 2)]] |}.

(** * Properties *)

(** ** Loops *)

(** A loop whose body never raises is a left fold. *)
Lemma for_each_total {A S} (body : S → A → result S) (f : S → A → S) l :
  (∀ s x, body s x = Ok (f s x)) → ∀ s, for_each body s l = Ok (foldl f s l).
Proof.
  intros Hb. induction l as [|x l IH]; intros s; simpl; [done|].
  rewrite Hb. simpl. apply IH.
Qed.

(** ** numpy *)

Lemma np_max_spec (a : list Z) :
  a ≠ [] → ∃ m, np.max a = Ok m ∧ m ∈ a ∧ Forall (λ x, x ≤ m) a.
Proof.
  destruct a as [|x a]; [done|]. intros _. simpl. eexists. split; [done|].
  revert x. induction a as [|y a IH]; intros x; simpl.
  - split; [by apply list_elem_of_singleton|]. repeat constructor. lia.
  - pose proof (IH (Z.max x y)) as [Hin Hall].
    apply Forall_cons in Hall as [H1 H2]. split.
    + apply elem_of_cons in Hin as [Hin|Hin].
      * rewrite Hin. rewrite !elem_of_cons.
        destruct (Z.max_spec x y) as [[_ ->]|[_ ->]]; auto.
      * rewrite !elem_of_cons. auto.
    + repeat constructor; [lia|lia|done].
Qed.

Lemma elem_of_np_arange (lo hi k : Z) : k ∈ np.arange lo hi ↔ lo ≤ k < hi.
Proof.
  unfold np.arange. rewrite list_elem_of_fmap. split.
  - intros (i & -> & Hi). apply elem_of_seq in Hi. lia.
  - intros Hk. exists (Z.to_nat (k - lo)). split; [lia|].
    apply elem_of_seq. lia.
Qed.

(** Within the dtype a sum is the mathematical one; one past the largest
    value it wraps around to the smallest. *)
Lemma np_add_in_range (dt : np.int_dtype) (x y : Z) :
  np.iinfo_min dt ≤ x + y ≤ np.iinfo_max dt → np.add dt x y = x + y.
Proof.
  intros H. unfold np.add. rewrite Z.mod_small; [lia|].
  revert H. unfold np.iinfo_min, np.iinfo_max. destruct dt; simpl; lia.
Qed.

Lemma np_add_overflow (dt : np.int_dtype) :
  np.add dt (np.iinfo_max dt) 1 = np.iinfo_min dt.
Proof. by destruct dt. Qed.

Lemma np_iinfo_min_nonpos (dt : np.int_dtype) : np.iinfo_min dt ≤ 0.
Proof. by destruct dt. Qed.

(** ** [run_lengths] *)

Lemma expand_cons (g : Z * nat) gs : expand (g :: gs) = replicate g.2 g.1 ++ expand gs.
Proof. done. Qed.

Lemma groupby_from_expand (a : list Z) : ∀ key n,
  expand (groupby_from key n a) = replicate n key ++ a.
Proof.
  induction a as [|x a IH]; intros key n; cbn [groupby_from].
  - by rewrite expand_cons, !app_nil_r.
  - case_decide as Hx.
    + subst x. rewrite IH.
      change (replicate (S n) key) with (key :: replicate n key).
      rewrite replicate_cons_app. by rewrite <- app_assoc.
    + rewrite expand_cons, (IH x 1%nat). done.
Qed.

Lemma groupby_from_positive (a : list Z) : ∀ key n,
  (0 < n)%nat → Forall (λ g, (0 < g.2)%nat) (groupby_from key n a).
Proof.
  induction a as [|x a IH]; intros key n Hn; simpl.
  - by constructor.
  - case_decide; [apply IH; lia|]. constructor; [done|]. apply IH. lia.
Qed.

Lemma groupby_from_head (a : list Z) : ∀ key n,
  ∃ n' gs, groupby_from key n a = (key, n') :: gs.
Proof.
  induction a as [|x a IH]; intros key n; simpl; [eauto|].
  case_decide; eauto.
Qed.

Lemma groupby_from_alternate (a : list Z) : ∀ key n,
  keys_alternate (groupby_from key n a).
Proof.
  induction a as [|x a IH]; intros key n; simpl; [done|].
  case_decide as Hx; [apply IH|].
  specialize (IH x 1%nat).
  destruct (groupby_from_head a x 1%nat) as (n' & gs & Hg).
  rewrite Hg in *. simpl. split; [congruence|done].
Qed.

Lemma groupby_maximal_runs (a : list Z) : maximal_runs (groupby a) a.
Proof.
  destruct a as [|x a]; [by repeat split|].
  unfold maximal_runs, groupby. split_and!.
  - by rewrite groupby_from_expand.
  - apply groupby_from_positive. lia.
  - apply groupby_from_alternate.
Qed.

Lemma groupby_from_replicate (key : Z) (k : nat) (a : list Z) : ∀ n,
  groupby_from key n (replicate k key ++ a) = groupby_from key (n + k) a.
Proof.
  induction k as [|k IH]; intros n; simpl.
  - by rewrite Nat.add_0_r.
  - rewrite decide_True by done. rewrite IH. f_equal. lia.
Qed.

(** The split into maximal runs is unique: any list of groups that expands
    to the array, has no empty group and no two neighbours with the same
    key is the one [groupby] computes. *)
Lemma maximal_runs_unique (gs : list (Z * nat)) (a : list Z) :
  maximal_runs gs a → gs = groupby a.
Proof.
  intros (<- & Hpos & Halt).
  induction gs as [|[key n] gs IH]; [done|].
  apply Forall_cons in Hpos as [Hn Hpos]. simpl in Hn.
  rewrite expand_cons. simpl. destruct n as [|n]; [lia|]. simpl.
  rewrite groupby_from_replicate. simpl.
  destruct gs as [|[key' n'] gs'].
  - done.
  - destruct Halt as [Hne Halt]. simpl in Hne.
    specialize (IH Hpos Halt).
    pose proof Hpos as Hpos'. apply Forall_cons in Hpos' as [Hn' _]. simpl in Hn'.
    rewrite expand_cons in *. simpl in *. destruct n' as [|n']; [lia|]. simpl in *.
    rewrite decide_False by done. by rewrite <- IH.
Qed.

Lemma expand_keys (gs : list (Z * nat)) :
  Forall (λ g, (0 < g.2)%nat) gs → Forall (λ g, g.1 ∈ expand gs) gs.
Proof.
  induction 1 as [|[k n] gs Hn _ IH]; [constructor|].
  rewrite expand_cons. simpl in *. constructor.
  - destruct n; [lia|]. simpl. apply elem_of_cons. by left.
  - eapply Forall_impl; [exact IH|]. intros g Hg. apply elem_of_app. by right.
Qed.

Lemma expand_length (gs : list (Z * nat)) :
  length (expand gs) = sum_list gs.*2.
Proof.
  induction gs as [|[k n] gs IH]; [done|].
  rewrite expand_cons, length_app, length_replicate, IH. done.
Qed.

Lemma dict_of_empty_lists_cons (k : Z) ks :
  dict_of_empty_lists (k :: ks) = <[k := []]> (dict_of_empty_lists ks).
Proof. done. Qed.

Lemma dict_of_empty_lists_lookup (ks : list Z) (k : Z) :
  dict_of_empty_lists ks !! k = if decide (k ∈ ks) then Some [] else None.
Proof.
  induction ks as [|x ks IH]; [|rewrite dict_of_empty_lists_cons].
  - change (dict_of_empty_lists []) with (∅ : gmap Z (list nat)).
    rewrite lookup_empty. destruct (decide (k ∈ [])) as [Hin|]; [|done].
    by apply elem_of_nil in Hin.
  - destruct (decide (x = k)) as [->|Hne].
    + rewrite lookup_insert_eq. destruct (decide (k ∈ k :: ks)) as [|Hin]; [done|].
      destruct Hin. apply elem_of_cons. by left.
    + rewrite lookup_insert_ne by done. rewrite IH.
      destruct (decide (k ∈ ks)) as [Hk|Hk], (decide (k ∈ x :: ks)) as [Hk'|Hk'];
        try done; rewrite elem_of_cons in Hk'; [|destruct Hk' as [?|?]; done].
      destruct Hk'. by right.
Qed.

Lemma lengths_of_cons (v : Z) (g : Z * nat) gs :
  lengths_of v (g :: gs)
  = if decide (g.1 = v) then g.2 :: lengths_of v gs else lengths_of v gs.
Proof. unfold lengths_of. rewrite filter_cons. by case_decide. Qed.

Lemma dict_append_Some (seqs : gmap Z (list nat)) key n l :
  seqs !! key = Some l → dict_append seqs key n = Ok (<[key := l ++ [n]]> seqs).
Proof. unfold dict_append. by intros ->. Qed.

Lemma dict_append_Ok (seqs s' : gmap Z (list nat)) key n :
  dict_append seqs key n = Ok s' →
  ∃ l, seqs !! key = Some l ∧ s' = <[key := l ++ [n]]> seqs.
Proof. unfold dict_append. destruct (seqs !! key); [|done]. intros [= <-]. eauto. Qed.

(** The loop appends, under every key, that key's run lengths in order. *)
Lemma append_loop (gs : list (Z * nat)) : ∀ seqs : gmap Z (list nat),
  Forall (λ g, is_Some (seqs !! g.1)) gs →
  ∃ m, for_each (λ seqs '(key, n), dict_append seqs key n) seqs gs = Ok m
       ∧ ∀ k, m !! k = (λ l, l ++ lengths_of k gs) <$> seqs !! k.
Proof.
  induction gs as [|[key n] gs IH]; intros seqs Hall.
  - exists seqs. split; [done|]. intros k. destruct (seqs !! k); simpl; [|done].
    by rewrite app_nil_r.
  - apply Forall_cons in Hall as [[l Hl] Hall]. simpl in Hl.
    destruct (IH (<[key := l ++ [n]]> seqs)) as (m & Hm & Hlook).
    { eapply Forall_impl; [exact Hall|]. intros g Hg. simpl in *.
      destruct (decide (key = g.1)) as [->|]; [rewrite lookup_insert_eq; eauto|].
      by rewrite lookup_insert_ne. }
    exists m. split.
    + cbn [for_each]. rewrite (dict_append_Some _ _ _ _ Hl). exact Hm.
    + intros k. rewrite Hlook, lengths_of_cons. simpl.
      destruct (decide (key = k)) as [->|Hne].
      * rewrite lookup_insert_eq, Hl. simpl. by rewrite <- app_assoc.
      * by rewrite lookup_insert_ne.
Qed.

Lemma total_runs_insert_fresh (m : gmap Z (list nat)) k l :
  m !! k = None → total_runs (<[k := l]> m) = (sum_list l + total_runs m)%nat.
Proof.
  intros Hk. unfold total_runs. rewrite map_fold_insert_L; [done| |done].
  intros. lia.
Qed.

Lemma total_runs_delete (m : gmap Z (list nat)) k l :
  m !! k = Some l → total_runs m = (sum_list l + total_runs (delete k m))%nat.
Proof.
  intros Hk. rewrite <- (insert_delete_id m k l) at 1 by done.
  apply total_runs_insert_fresh, lookup_delete_eq.
Qed.

Lemma sum_list_snoc (l : list nat) n : sum_list (l ++ [n]) = (sum_list l + n)%nat.
Proof. induction l as [|x l IH]; simpl; lia. Qed.

Lemma total_runs_append (m : gmap Z (list nat)) k l n :
  m !! k = Some l → total_runs (<[k := l ++ [n]]> m) = (total_runs m + n)%nat.
Proof.
  intros Hk. rewrite (total_runs_delete m k l Hk).
  rewrite <- insert_delete_eq.
  rewrite total_runs_insert_fresh by apply lookup_delete_eq.
  rewrite sum_list_snoc. lia.
Qed.

Lemma total_runs_empty_lists (ks : list Z) : total_runs (dict_of_empty_lists ks) = 0%nat.
Proof.
  induction ks as [|k ks IH]; [done|]. rewrite dict_of_empty_lists_cons.
  destruct (dict_of_empty_lists ks !! k) as [l|] eqn:Hk.
    + assert (l = []) as ->.
      { rewrite dict_of_empty_lists_lookup in Hk. case_decide; congruence. }
      by rewrite insert_id.
    + rewrite total_runs_insert_fresh by done. simpl. exact IH.
Qed.

Lemma append_loop_total (gs : list (Z * nat)) : ∀ (seqs m : gmap Z (list nat)),
  for_each (λ seqs '(key, n), dict_append seqs key n) seqs gs = Ok m →
  total_runs m = (total_runs seqs + sum_list gs.*2)%nat.
Proof.
  induction gs as [|[key n] gs IH]; intros seqs m; cbn [for_each].
  - intros [= ->]. simpl. lia.
  - destruct (dict_append seqs key n) as [s'|] eqn:Hs; [|done].
    apply dict_append_Ok in Hs as (l & Hl & ->).
    intros Hm. rewrite fmap_cons. simpl. rewrite (IH _ _ Hm), (total_runs_append _ _ _ _ Hl). lia.
Qed.

Lemma lengths_of_absent (v : Z) (gs : list (Z * nat)) :
  Forall (λ g, g.1 ≠ v) gs → lengths_of v gs = [].
Proof.
  induction 1 as [|g gs Hg _ IH]; [done|].
  rewrite lengths_of_cons. by case_decide.
Qed.

Lemma groupby_keys (a : list Z) : Forall (λ g, g.1 ∈ a) (groupby a).
Proof.
  destruct (groupby_maximal_runs a) as (He & Hpos & _).
  pose proof (expand_keys _ Hpos) as Hk. by rewrite He in Hk.
Qed.

Lemma expand_app (gs1 gs2 : list (Z * nat)) :
  expand (gs1 ++ gs2) = expand gs1 ++ expand gs2.
Proof. unfold expand. apply bind_app. Qed.

Lemma expand_elem (gs : list (Z * nat)) (x : Z) :
  x ∈ expand gs → ∃ g, g ∈ gs ∧ g.1 = x.
Proof.
  unfold expand. intros (g & Hx & Hg)%list_elem_of_bind.
  apply elem_of_replicate in Hx as [-> _]. eauto.
Qed.

(** A key that is missing from the mapping stops the loop with a
    [KeyError]: appending never adds a key. *)
Lemma append_loop_missing (gs : list (Z * nat)) : ∀ seqs : gmap Z (list nat),
  Exists (λ g, seqs !! g.1 = None) gs →
  for_each (λ seqs '(key, n), dict_append seqs key n) seqs gs = Raise KeyError.
Proof.
  induction gs as [|[key n] gs IH]; intros seqs Hex; [by apply Exists_nil in Hex|].
  cbn [for_each]. destruct (seqs !! key) as [l|] eqn:Hl.
  - rewrite (dict_append_Some _ _ _ _ Hl). cbn [mbind result_bind].
    apply IH. apply Exists_cons in Hex as [Hex|Hex]; [simpl in Hex; congruence|].
    eapply Exists_impl; [exact Hex|]. intros g Hg. simpl in *.
    rewrite lookup_insert_ne; [done|]. intros Heq. rewrite Heq in Hl. congruence.
  - unfold dict_append. by rewrite Hl.
Qed.

(** The call on a non-empty array, by the keys built from its maximum
    [mx]: with [hi] the value of [np.max(array) + 1], it returns when every
    entry lies in [0, hi), and raises a [KeyError] otherwise. *)
Lemma run_lengths_keys (dt : np.int_dtype) (a : list Z) (mx : Z) :
  np.max a = Ok mx →
  Forall (λ x, 0 ≤ x < np.add dt mx 1) a →
  ∃ m, run_lengths dt a = Ok m
    ∧ for_each (λ seqs '(key, n), dict_append seqs key n)
        (dict_of_empty_lists (np.arange 0 (np.add dt mx 1))) (groupby a) = Ok m
    ∧ ∀ k, m !! k = if decide (0 ≤ k < np.add dt mx 1)
                    then Some (lengths_of k (groupby a)) else None.
Proof.
  intros Hmax Hin.
  destruct (append_loop (groupby a) (dict_of_empty_lists (np.arange 0 (np.add dt mx 1))))
    as (m & Hm & Hlook).
  { eapply Forall_impl; [apply groupby_keys|]. intros g Hg. simpl in Hg.
    rewrite dict_of_empty_lists_lookup.
    rewrite Forall_forall in Hin.
    rewrite decide_True; [eauto|]. apply elem_of_np_arange. by apply Hin. }
  exists m. split_and!; try done.
  - unfold run_lengths. rewrite Hmax. exact Hm.
  - intros k. rewrite Hlook, dict_of_empty_lists_lookup.
    destruct (decide (0 ≤ k < np.add dt mx 1)) as [Hk|Hk].
    + rewrite decide_True by (by apply elem_of_np_arange). done.
    + rewrite decide_False; [done|]. by rewrite elem_of_np_arange.
Qed.

Lemma run_lengths_key_missing (dt : np.int_dtype) (a : list Z) (mx : Z) :
  np.max a = Ok mx →
  Exists (λ x, ¬ (0 ≤ x < np.add dt mx 1)) a →
  run_lengths dt a = Raise KeyError.
Proof.
  intros Hmax Hex. unfold run_lengths. rewrite Hmax. cbn [mbind result_bind].
  apply append_loop_missing.
  apply Exists_exists in Hex as (x & Hx & Hout).
  destruct (groupby_maximal_runs a) as (He & _ & _).
  rewrite <- He in Hx. apply expand_elem in Hx as (g & Hg & Hgx).
  apply Exists_exists. exists g. split; [done|].
  rewrite dict_of_empty_lists_lookup, decide_False; [done|].
  rewrite elem_of_np_arange. by rewrite Hgx.
Qed.

(** What a returned mapping is. *)
Lemma run_lengths_Ok (dt : np.int_dtype) (a : list Z) (m : gmap Z (list nat)) :
  run_lengths dt a = Ok m →
  ∃ mx, np.max a = Ok mx
    ∧ Forall (λ x, 0 ≤ x < np.add dt mx 1) a
    ∧ ∀ k, m !! k = if decide (0 ≤ k < np.add dt mx 1)
                    then Some (lengths_of k (groupby a)) else None.
Proof.
  intros Hrun. destruct (np.max a) as [mx|e] eqn:Hmax.
  2:{ unfold run_lengths in Hrun. by rewrite Hmax in Hrun. }
  exists mx. split; [done|].
  destruct (decide (Forall (λ x, 0 ≤ x < np.add dt mx 1) a)) as [Hin|Hout].
  - split; [done|].
    destruct (run_lengths_keys dt a mx Hmax Hin) as (m' & Hrun' & _ & Hlook).
    by assert (m' = m) as -> by congruence.
  - apply not_Forall_Exists in Hout; [|apply _].
    rewrite (run_lengths_key_missing dt a mx Hmax Hout) in Hrun. discriminate Hrun.
Qed.

(** Below the largest value of the dtype nothing wraps: the keys are
    [0..max]. *)
Lemma run_lengths_ok (dt : np.int_dtype) (a : list Z) :
  a ≠ [] → Forall (λ x, 0 ≤ x < np.iinfo_max dt) a →
  ∃ mx m, np.max a = Ok mx ∧ mx ∈ a ∧ Forall (λ x, x ≤ mx) a
    ∧ run_lengths dt a = Ok m
    ∧ for_each (λ seqs '(key, n), dict_append seqs key n)
        (dict_of_empty_lists (np.arange 0 (mx + 1))) (groupby a) = Ok m
    ∧ ∀ k, m !! k = if decide (0 ≤ k ≤ mx) then Some (lengths_of k (groupby a)) else None.
Proof.
  intros Hne Hpos. destruct (np_max_spec a Hne) as (mx & Hmax & Hin & Hle).
  assert (Hadd : np.add dt mx 1 = mx + 1).
  { apply np_add_in_range. rewrite Forall_forall in Hpos. specialize (Hpos mx Hin).
    pose proof (np_iinfo_min_nonpos dt). simpl in Hpos. lia. }
  destruct (run_lengths_keys dt a mx Hmax) as (m & Hrun & Hloop & Hlook).
  { rewrite Hadd. rewrite Forall_forall in Hpos, Hle. apply Forall_forall.
    intros x Hx. specialize (Hpos x Hx). specialize (Hle x Hx). simpl in *. lia. }
  rewrite Hadd in Hloop. exists mx, m. split_and!; try done.
  intros k. rewrite Hlook, Hadd.
  destruct (decide (0 ≤ k < mx + 1)), (decide (0 ≤ k ≤ mx)); try done; lia.
Qed.

(** C5 (as the code has it).  For every non-empty array of non-negative
    integers below the largest value of its dtype, [run_lengths] returns a
    mapping whose keys are exactly the integers from 0 to the maximum of the
    array; each key is mapped to the lengths, in order, of the maximal
    contiguous runs of that value ([groupby] computes the one split of the
    array into maximal runs), which is the empty list for a value absent
    from the array.  In particular the documented example (a Python list,
    hence [int64]) evaluates to [{0: [2,1], 1: [3,4], 2: [], 3: [], 4: [6]}]. *)
Theorem run_lengths_spec :
  (∀ (dt : np.int_dtype) (a : list Z),
     a ≠ [] → Forall (λ x, 0 ≤ x < np.iinfo_max dt) a →
     ∃ mx m, np.max a = Ok mx ∧ mx ∈ a ∧ Forall (λ x, x ≤ mx) a
       ∧ run_lengths dt a = Ok m
       ∧ (∀ k, k ∈ dom m ↔ 0 ≤ k ≤ mx)
       ∧ maximal_runs (groupby a) a
       ∧ (∀ gs, maximal_runs gs a → gs = groupby a)
       ∧ (∀ k, 0 ≤ k ≤ mx → m !! k = Some (lengths_of k (groupby a)))
       ∧ (∀ k, 0 ≤ k ≤ mx → k ∉ a → m !! k = Some []))
  ∧ run_lengths np.int64 [1;1;1;0;0;4;4;4;4;4;4;0;1;1;1;1]
    = Ok (list_to_map
            [(0, [2;1]%nat); (1, [3;4]%nat); (2, []); (3, []); (4, [6%nat])]).
Proof.
  split; [|by vm_compute].
  intros dt a Hne Hpos.
  destruct (run_lengths_ok dt a Hne Hpos) as (mx & m & Hmax & Hin & Hle & Hrun & _ & Hlook).
  exists mx, m. split_and!; try done.
  - intros k. rewrite elem_of_dom, Hlook. case_decide; [|split; [by intros [? ?]|done]].
    split; eauto.
  - apply groupby_maximal_runs.
  - intros gs. apply maximal_runs_unique.
  - intros k Hk. rewrite Hlook. by rewrite decide_True.
  - intros k Hk Hnot. rewrite Hlook, decide_True by done. f_equal.
    apply lengths_of_absent. eapply Forall_impl; [apply groupby_keys|].
    intros g Hg Heq. simpl in *. congruence.
Qed.

Lemma run_lengths_spec_witness :
  [2;2;2] ≠ [] ∧ Forall (λ x, 0 ≤ x < np.iinfo_max np.int8) [2;2;2] ∧
  ∃ mx m, np.max [2;2;2] = Ok mx ∧ mx ∈ [2;2;2] ∧ Forall (λ x, x ≤ mx) [2;2;2]
       ∧ run_lengths np.int8 [2;2;2] = Ok m
       ∧ (∀ k, k ∈ dom m ↔ 0 ≤ k ≤ mx)
       ∧ maximal_runs (groupby [2;2;2]) [2;2;2]
       ∧ (∀ gs, maximal_runs gs [2;2;2] → gs = groupby [2;2;2])
       ∧ (∀ k, 0 ≤ k ≤ mx → m !! k = Some (lengths_of k (groupby [2;2;2])))
       ∧ (∀ k, 0 ≤ k ≤ mx → k ∉ [2;2;2] → m !! k = Some []).
Proof.
  assert (H1 : [2;2;2] ≠ []) by discriminate.
  assert (H2 : Forall (λ x, 0 ≤ x < np.iinfo_max np.int8) [2;2;2])
    by (repeat constructor; vm_compute; done).
  split; [exact H1|]. split; [exact H2|].
  exact (proj1 run_lengths_spec np.int8 [2;2;2] H1 H2).
Defined.

(** C5 as stated fails: the one-entry [int8] array [[127]] is non-empty and
    non-negative, but [np.max(array) + 1] wraps around to -128, no key is
    built, and appending the first run raises a [KeyError].  The same
    happens at the top of the platform integer, [int64]. *)
Lemma run_lengths_int8_max :
  [127] ≠ [] ∧ has_dtype np.int8 [127] ∧ Forall (λ x, 0 ≤ x) [127]
  ∧ np.add np.int8 127 1 = -128
  ∧ run_lengths np.int8 [127] = Raise KeyError
  ∧ has_dtype np.int64 [9223372036854775807]
  ∧ run_lengths np.int64 [9223372036854775807] = Raise KeyError.
Proof.
  split; [discriminate|]. split; [repeat constructor; vm_compute; done|].
  split; [repeat constructor; lia|]. split; [reflexivity|]. split; [reflexivity|].
  split; [repeat constructor; vm_compute; done|]. reflexivity.
Qed.

(** C6. [run_lengths] applied to an empty array raises ([np.max] has no
    value to return); it does not return an empty mapping. *)
Theorem run_lengths_empty (dt : np.int_dtype) :
  run_lengths dt [] = Raise ValueError ∧ run_lengths dt [] ≠ Ok ∅.
Proof. split; [reflexivity|discriminate]. Qed.

(** C10 (as the code has it).  Conservation: the run lengths of a returned
    mapping, summed over all keys, add up to the length of the array; and a
    mapping is returned for every non-empty array of non-negative integers
    below the largest value of its dtype. *)
Theorem run_lengths_conservation (dt : np.int_dtype) (a : list Z) :
  (∀ m, run_lengths dt a = Ok m → total_runs m = length a)
  ∧ (a ≠ [] → Forall (λ x, 0 ≤ x < np.iinfo_max dt) a →
     ∃ m, run_lengths dt a = Ok m ∧ total_runs m = length a).
Proof.
  assert (Htotal : ∀ m, run_lengths dt a = Ok m → total_runs m = length a).
  { intros m Hrun. destruct (run_lengths_Ok dt a m Hrun) as (mx & Hmax & Hin & _).
    destruct (run_lengths_keys dt a mx Hmax Hin) as (m' & Hrun' & Hloop & _).
    assert (m' = m) as -> by congruence.
    rewrite (append_loop_total _ _ _ Hloop), total_runs_empty_lists.
    destruct (groupby_maximal_runs a) as (He & _ & _).
    rewrite <- He at 2. by rewrite expand_length. }
  split; [exact Htotal|]. intros Hne Hpos.
  destruct (run_lengths_ok dt a Hne Hpos) as (mx & m & _ & _ & _ & Hrun & _).
  exists m. split; [done|]. by apply Htotal.
Qed.

Lemma run_lengths_conservation_witness :
  [1;1;0;3] ≠ [] ∧ Forall (λ x, 0 ≤ x < np.iinfo_max np.int64) [1;1;0;3] ∧
  ∃ m, run_lengths np.int64 [1;1;0;3] = Ok m ∧ total_runs m = length [1;1;0;3].
Proof.
  assert (H1 : [1;1;0;3] ≠ []) by discriminate.
  assert (H2 : Forall (λ x, 0 ≤ x < np.iinfo_max np.int64) [1;1;0;3])
    by (repeat constructor; vm_compute; done).
  split; [exact H1|]. split; [exact H2|].
  exact (proj2 (run_lengths_conservation np.int64 [1;1;0;3]) H1 H2).
Defined.

(** C10 as stated fails: the [uint8] array [[3, 255, 255]] is non-empty and
    non-negative, but [np.max(array) + 1] wraps around to 0 and no mapping
    is returned whose run lengths could be summed. *)
Lemma run_lengths_uint8_max :
  [3; 255; 255] ≠ [] ∧ has_dtype np.uint8 [3; 255; 255]
  ∧ Forall (λ x, 0 ≤ x) [3; 255; 255]
  ∧ np.add np.uint8 255 1 = 0
  ∧ run_lengths np.uint8 [3; 255; 255] = Raise KeyError.
Proof.
  split; [discriminate|]. split; [repeat constructor; vm_compute; done|].
  split; [repeat constructor; lia|]. split; reflexivity.
Qed.

(** ** [int_over_union] *)

Lemma elem_of_insert_sorted (v x : Z) (l : list Z) :
  v ∈ np.insert_sorted x l ↔ v = x ∨ v ∈ l.
Proof.
  induction l as [|y l IH]; simpl.
  - rewrite list_elem_of_singleton, elem_of_nil. tauto.
  - repeat case_decide; rewrite ?elem_of_cons, ?IH; subst; tauto.
Qed.

Lemma elem_of_np_unique (v : Z) (a : list Z) : v ∈ np.unique a ↔ v ∈ a.
Proof.
  unfold np.unique. induction a as [|x a IH]; simpl; [done|].
  by rewrite elem_of_insert_sorted, elem_of_cons, IH.
Qed.

Lemma np_broadcast_same_length {A B C} (f : A → B → C) a b :
  length a = length b → np.broadcast f a b = Ok (zip_with f a b).
Proof. intros H. unfold np.broadcast. by rewrite decide_True. Qed.

Lemma np_equal_length a v : length (np.equal a v) = length a.
Proof. apply length_fmap. Qed.

Lemma np_sum_both (v : Z) (a b : list Z) :
  np.sum (zip_with andb (np.equal a v) (np.equal b v)) = Z.of_nat (count_both v a b).
Proof.
  unfold np.sum, count_both. f_equal. revert b.
  induction a as [|x a IH]; intros [|y b]; simpl; try done.
  rewrite !filter_cons. simpl.
  destruct (decide (x = v)), (decide (y = v)); subst;
    rewrite ?bool_decide_eq_true_2, ?bool_decide_eq_false_2 by done; simpl;
    repeat (case_decide; try tauto); simpl; by rewrite ?IH.
Qed.

Lemma np_sum_either (v : Z) (a b : list Z) :
  np.sum (zip_with orb (np.equal a v) (np.equal b v)) = Z.of_nat (count_either v a b).
Proof.
  unfold np.sum, count_either. f_equal. revert b.
  induction a as [|x a IH]; intros [|y b]; simpl; try done.
  rewrite !filter_cons. simpl.
  destruct (decide (x = v)), (decide (y = v)); subst;
    rewrite ?bool_decide_eq_true_2, ?bool_decide_eq_false_2 by done; simpl;
    repeat (case_decide; try tauto); simpl; by rewrite ?IH.
Qed.

Lemma count_both_le_either (v : Z) (a b : list Z) :
  (count_both v a b ≤ count_either v a b)%nat.
Proof.
  unfold count_both, count_either.
  induction (zip a b) as [|xy l IH]; [done|].
  rewrite !filter_cons. repeat case_decide; simpl; try lia; tauto.
Qed.

Lemma count_either_pos (v : Z) (a b : list Z) :
  length a = length b → v ∈ a ∨ v ∈ b → (0 < count_either v a b)%nat.
Proof.
  unfold count_either. revert b.
  induction a as [|x a IH]; intros [|y b] Hlen Hin; simpl in *; try done.
  - destruct Hin as [Hin|Hin]; by apply elem_of_nil in Hin.
  - rewrite filter_cons. case_decide as Hxy; simpl; [lia|].
    apply IH; [lia|]. simpl in Hxy. rewrite !elem_of_cons in Hin.
    destruct Hin as [[Hx|?]|[Hy|?]];
      [destruct Hxy; by left | by left | destruct Hxy; by right | by right].
Qed.

Lemma foldl_insert_lookup {V} (f : Z → V) (vals : list Z) : ∀ (init : gmap Z V) k,
  foldl (λ m v, <[v := f v]> m) init vals !! k
  = if decide (k ∈ vals) then Some (f k) else init !! k.
Proof.
  induction vals as [|v vals IH]; intros init k; simpl.
  - destruct (decide (k ∈ [])) as [Hin|]; [by apply elem_of_nil in Hin|done].
  - rewrite IH. destruct (decide (k ∈ vals)) as [Hk|Hk].
    + rewrite decide_True; [done|]. by right.
    + destruct (decide (k = v)) as [->|Hne].
      * rewrite lookup_insert_eq, decide_True; [done|]. by left.
      * rewrite lookup_insert_ne by done. rewrite decide_False; [done|].
        rewrite elem_of_cons. tauto.
Qed.

Lemma true_divide_counts (n d : nat) :
  (0 < d)%nat → (n ≤ d)%nat →
  true_divide (Z.of_nat n) (Z.of_nat d) = Real (ratio n d)
  ∧ (0 <= ratio n d)%Q ∧ (ratio n d <= 1)%Q.
Proof.
  intros Hd Hn. unfold ratio. split_and!.
  - unfold true_divide, fl.div, fl.of_int, fl.zero. simpl.
    rewrite bool_decide_eq_false_2 by lia. done.
  - apply Qle_shift_div_l.
    + change 0%Q with (inject_Z 0). rewrite <- Zlt_Qlt. lia.
    + rewrite Qmult_0_l. change 0%Q with (inject_Z 0). rewrite <- Zle_Qle. lia.
  - apply Qle_shift_div_r.
    + change 0%Q with (inject_Z 0). rewrite <- Zlt_Qlt. lia.
    + rewrite Qmult_1_l. rewrite <- Zle_Qle. lia.
Qed.

(** C4. For equal-length integer arrays [int_over_union] returns a mapping
    whose keys are exactly the values occurring in either array; each such
    value is mapped to the number of positions where both arrays hold it
    divided by the number of positions where at least one does, a ratio
    between 0 and 1.  In particular [int_over_union([1,1,0], [1,0,0])] is
    [{0: 1/2, 1: 1/2}]. *)
Theorem int_over_union_spec :
  (∀ array1 array2 : list Z, length array1 = length array2 →
     ∃ iou, int_over_union array1 array2 = Ok iou
       ∧ (∀ v, v ∈ dom iou ↔ v ∈ array1 ∨ v ∈ array2)
       ∧ ∀ v, v ∈ array1 ∨ v ∈ array2 →
           let intersection := count_both v array1 array2 in
           let union := count_either v array1 array2 in
           iou !! v = Some (Real (ratio intersection union))
           ∧ (0 < union)%nat
           ∧ (0 <= ratio intersection union)%Q ∧ (ratio intersection union <= 1)%Q)
  ∧ int_over_union [1;1;0] [1;0;0]
    = Ok (list_to_map [(0, Real (1 # 2)); (1, Real (1 # 2))]).
Proof.
  split; [|by vm_compute].
  intros a1 a2 Hlen. unfold int_over_union.
  set (vals := np.unique (np.unique a1 ++ np.unique a2)).
  set (init := list_to_map ((λ val, (val, NaN)) <$> vals) : gmap Z float64).
  assert (Hvals : ∀ v, v ∈ vals ↔ v ∈ a1 ∨ v ∈ a2).
  { intros v. unfold vals.
    by rewrite elem_of_np_unique, elem_of_app, !elem_of_np_unique. }
  rewrite (for_each_total _
    (λ m v, <[v := true_divide (Z.of_nat (count_both v a1 a2))
                               (Z.of_nat (count_either v a1 a2))]> m)).
  2:{ intros s v.
      rewrite !np_broadcast_same_length by (by rewrite !np_equal_length).
      simpl. by rewrite np_sum_both, np_sum_either. }
  eexists. split; [done|]. split.
  - intros v. rewrite elem_of_dom, foldl_insert_lookup, <- Hvals.
    case_decide as Hv; [split; eauto|].
    split; [|done]. intros Hs. exfalso. apply Hv.
    unfold init in Hs. apply elem_of_dom in Hs.
    rewrite dom_list_to_map_L in Hs. apply elem_of_list_to_set in Hs.
    rewrite <- list_fmap_compose in Hs. apply list_elem_of_fmap in Hs as (w & -> & Hw).
    done.
  - intros v Hv. simpl. rewrite foldl_insert_lookup.
    rewrite decide_True by (by apply Hvals).
    pose proof (count_either_pos v a1 a2 Hlen Hv) as Hpos.
    pose proof (count_both_le_either v a1 a2) as Hle.
    by destruct (true_divide_counts _ _ Hpos Hle) as (-> & H0 & H1).
Qed.

Lemma int_over_union_spec_witness :
  length [1;2;2] = length [1;1;2] ∧
  ∃ iou, int_over_union [1;2;2] [1;1;2] = Ok iou
    ∧ (∀ v, v ∈ dom iou ↔ v ∈ [1;2;2] ∨ v ∈ [1;1;2])
    ∧ ∀ v, v ∈ [1;2;2] ∨ v ∈ [1;1;2] →
        let intersection := count_both v [1;2;2] [1;1;2] in
        let union := count_either v [1;2;2] [1;1;2] in
        iou !! v = Some (Real (ratio intersection union))
        ∧ (0 < union)%nat
        ∧ (0 <= ratio intersection union)%Q ∧ (ratio intersection union <= 1)%Q.
Proof.
  split; [reflexivity|].
  exact (proj1 int_over_union_spec [1;2;2] [1;1;2] eq_refl).
Defined.

(** ** [get_precision_recall] *)

(** *** Selecting the observed positions *)

Lemma filter_fmap_comm {A B} (f : A → B) (P : B → Prop) `{!∀ y, Decision (P y)}
    (l : list A) :
  filter P (f <$> l) = f <$> filter (λ x, P (f x)) l.
Proof.
  induction l as [|x l IH]; [done|].
  rewrite fmap_cons, !filter_cons. case_decide; by rewrite ?fmap_cons, IH.
Qed.

Lemma filter_equiv {A} (P Q : A → Prop) `{!∀ x, Decision (P x)} `{!∀ x, Decision (Q x)}
    (l : list A) :
  (∀ x, P x ↔ Q x) → filter P l = filter Q l.
Proof.
  intros HPQ. induction l as [|x l IH]; [done|].
  rewrite !filter_cons. specialize (HPQ x).
  repeat case_decide; try tauto; by rewrite IH.
Qed.

Lemma filter_none {A} (P : A → Prop) `{!∀ x, Decision (P x)} (l : list A) :
  Forall (λ x, ¬ P x) l → filter P l = [].
Proof.
  induction 1 as [|x l Hx _ IH]; [done|]. by rewrite filter_cons, decide_False.
Qed.

Lemma where_true_cons (b : bool) (mask : list bool) :
  np.where_true (b :: mask)
  = (if b then [0%nat] else []) ++ (S <$> np.where_true mask).
Proof.
  unfold np.where_true. cbn [length seq]. rewrite <- fmap_S_seq.
  rewrite filter_cons, filter_fmap_comm. simpl.
  destruct b.
  - rewrite decide_True by done. done.
  - rewrite decide_False by done. done.
Qed.

Lemma take_shift {A} (x : A) (a : list A) (idxs : list nat) :
  np.take (x :: a) (S <$> idxs) = np.take a idxs.
Proof.
  induction idxs as [|i idxs IH]; [done|].
  rewrite fmap_cons. cbn [np.take]. rewrite IH. done.
Qed.

Lemma take_observed_true (bg : Z) (t p : list Z) :
  length t = length p →
  np.take t (np.where_true (np.not_equal t bg)) = Ok (observed bg t p).*1.
Proof.
  unfold observed. revert p.
  induction t as [|x t IH]; intros [|y p] Hlen; try done.
  change (np.not_equal (x :: t) bg)
    with (bool_decide (x ≠ bg) :: np.not_equal t bg).
  rewrite where_true_cons. cbn [zip zip_with]. rewrite filter_cons. simpl.
  destruct (decide (x ≠ bg)) as [Hx|Hx].
  - rewrite bool_decide_eq_true_2 by done. cbn [app np.take lookup list_lookup].
    rewrite take_shift, (IH p) by (simpl in Hlen; lia). done.
  - rewrite bool_decide_eq_false_2 by done. cbn [app].
    rewrite take_shift. apply IH. simpl in Hlen; lia.
Qed.

Lemma take_observed_pred (bg : Z) (t p : list Z) :
  length t = length p →
  np.take p (np.where_true (np.not_equal t bg)) = Ok (observed bg t p).*2.
Proof.
  unfold observed. revert p.
  induction t as [|x t IH]; intros [|y p] Hlen; try done.
  change (np.not_equal (x :: t) bg)
    with (bool_decide (x ≠ bg) :: np.not_equal t bg).
  rewrite where_true_cons. cbn [zip zip_with]. rewrite filter_cons. simpl.
  destruct (decide (x ≠ bg)) as [Hx|Hx].
  - rewrite bool_decide_eq_true_2 by done. cbn [app np.take lookup list_lookup].
    rewrite take_shift, (IH p) by (simpl in Hlen; lia). done.
  - rewrite bool_decide_eq_false_2 by done. cbn [app].
    rewrite take_shift. apply IH. simpl in Hlen; lia.
Qed.

Lemma observed_true (bg : Z) (t p : list Z) :
  length t = length p → (observed bg t p).*1 = filter (λ x, x ≠ bg) t.
Proof.
  intros Hlen. unfold observed.
  rewrite <- (fst_zip t p) at 2 by lia.
  by rewrite filter_fmap_comm.
Qed.

(** *** The counts scikit-learn works with *)

Lemma tp_sum_observed (t p : list Z) (c : Z) :
  c ≠ 0 →
  sklearn.tp_sum (observed 0 t p).*1 (observed 0 t p).*2 c
  = Z.of_nat (true_positives t p c).
Proof.
  intros Hc. unfold sklearn.tp_sum, true_positives, observed.
  rewrite zip_fst_snd, list_filter_filter. do 2 f_equal.
  apply filter_equiv. intros [x y]. simpl. split; [tauto|].
  intros [-> ->]. done.
Qed.

Lemma pred_sum_observed (t p : list Z) (c : Z) :
  sklearn.pred_sum (observed 0 t p).*2 c = Z.of_nat (predicted t p c).
Proof.
  unfold sklearn.pred_sum, predicted, observed.
  rewrite filter_fmap_comm, length_fmap, list_filter_filter. do 2 f_equal.
  apply filter_equiv. intros [x y]. simpl. tauto.
Qed.

Lemma true_sum_observed (t p : list Z) (c : Z) :
  length t = length p → c ≠ 0 →
  sklearn.true_sum (observed 0 t p).*1 c = Z.of_nat (support t c).
Proof.
  intros Hlen Hc. unfold sklearn.true_sum, support.
  rewrite observed_true, list_filter_filter by done. do 2 f_equal.
  apply filter_equiv. intros x. split; [tauto|]. intros ->. done.
Qed.

Lemma filter_length_mono {A} (P Q : A → Prop) `{!∀ x, Decision (P x)}
    `{!∀ x, Decision (Q x)} (l : list A) :
  (∀ x, P x → Q x) → (length (filter P l) ≤ length (filter Q l))%nat.
Proof.
  intros HPQ. induction l as [|x l IH]; [done|].
  rewrite !filter_cons. specialize (HPQ x).
  repeat case_decide; simpl; try lia; tauto.
Qed.

Lemma true_positives_le_predicted (t p : list Z) (c : Z) :
  c ≠ 0 → (true_positives t p c ≤ predicted t p c)%nat.
Proof.
  intros Hc. apply filter_length_mono. intros [x y]. simpl. intros [-> ->]. done.
Qed.

Lemma true_positives_le_support (t p : list Z) (c : Z) :
  (true_positives t p c ≤ support t c)%nat.
Proof.
  unfold true_positives, support. revert p.
  induction t as [|x t IH]; intros [|y p]; simpl; try lia.
  rewrite !filter_cons. simpl. specialize (IH p).
  repeat case_decide; simpl; try lia; tauto.
Qed.

(** *** The replacement loop *)

Lemma insert_middle {A} (l1 l2 : list A) (x y : A) :
  <[length l1 := x]> (l1 ++ y :: l2) = l1 ++ x :: l2.
Proof. rewrite insert_app_r_alt by lia. by rewrite Nat.sub_diag. Qed.

Lemma nan_step_at (ps rs : list float64) (n : nat) (p r : float64) :
  ps !! n = Some p → rs !! n = Some r →
  nan_step (ps, rs) n
  = Ok (if fl.is_zero p && fl.is_zero r
        then (<[n := NaN]> ps, <[n := NaN]> rs) else (ps, rs)).
Proof.
  unfold nan_step. cbn [fst snd]. intros -> ->.
  by destruct (fl.is_zero p && fl.is_zero r).
Qed.

Lemma nan_loop_from (ps rs : list float64) : ∀ pre_p pre_r : list float64,
  length pre_p = length pre_r → length ps = length rs →
  for_each nan_step (pre_p ++ ps, pre_r ++ rs) (seq (length pre_p) (length ps))
  = Ok (pre_p ++ zip_with (λ p r, (nan_pair p r).1) ps rs,
        pre_r ++ zip_with (λ p r, (nan_pair p r).2) ps rs).
Proof.
  revert rs. induction ps as [|p ps IH]; intros [|r rs] pre_p pre_r Hpre Hlen;
    try done.
  cbn [length seq for_each zip_with].
  assert (Hp : (pre_p ++ p :: ps) !! length pre_p = Some p)
    by (by rewrite list_lookup_middle).
  assert (Hr : (pre_r ++ r :: rs) !! length pre_p = Some r)
    by (by rewrite list_lookup_middle).
  rewrite (nan_step_at _ _ _ _ _ Hp Hr).
  assert (Hstep : ∀ p' r' : float64,
    for_each nan_step (pre_p ++ p' :: ps, pre_r ++ r' :: rs)
      (seq (S (length pre_p)) (length ps))
    = Ok (pre_p ++ p' :: zip_with (λ p r, (nan_pair p r).1) ps rs,
          pre_r ++ r' :: zip_with (λ p r, (nan_pair p r).2) ps rs)).
  { intros p' r'.
    rewrite (cons_middle p' pre_p), (cons_middle r' pre_r), !app_assoc.
    replace (S (length pre_p)) with (length (pre_p ++ [p']))
      by (rewrite length_app; simpl; lia).
    rewrite IH; [by rewrite <- !app_assoc| |simpl in Hlen; lia].
    rewrite !length_app. simpl. lia. }
  unfold nan_pair at 1 3.
  destruct (fl.is_zero p && fl.is_zero r); cbn [fst snd mbind result_bind].
  - rewrite Hpre at 2.
    rewrite !insert_middle. apply Hstep.
  - apply Hstep.
Qed.

Lemma nan_loop (ps rs : list float64) :
  length ps = length rs →
  for_each nan_step (ps, rs) (seq 0 (length ps))
  = Ok (zip_with (λ p r, (nan_pair p r).1) ps rs,
        zip_with (λ p r, (nan_pair p r).2) ps rs).
Proof. intros Hlen. by apply (nan_loop_from ps rs [] []). Qed.

Lemma zip_with_fmap_both {A B C D} (h : B → C → D) (f : A → B) (g : A → C) (l : list A) :
  zip_with h (f <$> l) (g <$> l) = (λ x, h (f x) (g x)) <$> l.
Proof. by rewrite zip_with_fmap_l, zip_with_fmap_r, zip_with_diag. Qed.

Lemma f1_score_fmap {A} (f g : A → float64) (l : list A) :
  f1_score (f <$> l) (g <$> l)
  = Ok ((λ x, fl.div (fl.mul (fl.mul (Real 2) (f x)) (g x)) (fl.add (f x) (g x))) <$> l).
Proof.
  unfold f1_score.
  rewrite np_broadcast_same_length by (by rewrite !length_fmap).
  cbn [mbind result_bind].
  rewrite np_broadcast_same_length by (by rewrite !length_fmap).
  cbn [mbind result_bind].
  rewrite np_broadcast_same_length
    by (by rewrite !length_zip_with, !length_fmap).
  rewrite <- list_fmap_compose, !zip_with_fmap_both. done.
Qed.

(** *** Arithmetic of the ratios *)

Lemma ratio_num (n d : nat) : (0 < d)%nat → Qnum (ratio n d) = Z.of_nat n.
Proof.
  intros Hd. unfold ratio, Qdiv, Qinv. simpl.
  destruct (Z.of_nat d) eqn:E; try lia. simpl. lia.
Qed.

Lemma ratio_bounds (n d : nat) :
  (0 < d)%nat → (n ≤ d)%nat → (0 <= ratio n d)%Q ∧ (ratio n d <= 1)%Q.
Proof. intros Hd Hn. by destruct (true_divide_counts n d Hd Hn) as (_ & ? & ?). Qed.

Lemma ratio_pos (n d : nat) : (0 < n)%nat → (0 < d)%nat → (0 < ratio n d)%Q.
Proof.
  intros Hn Hd. unfold Qlt. rewrite ratio_num by done. simpl. lia.
Qed.

Lemma prf_divide_pos (n d : nat) :
  (0 < n)%nat → (n ≤ d)%nat →
  sklearn.prf_divide (Z.of_nat n) (Z.of_nat d) = Real (ratio n d).
Proof.
  intros Hn Hle. unfold sklearn.prf_divide. rewrite decide_False by lia.
  by destruct (true_divide_counts n d) as (-> & _); [lia|done|].
Qed.

Lemma prf_divide_is_zero (n d : nat) :
  (n ≤ d)%nat →
  fl.is_zero (sklearn.prf_divide (Z.of_nat n) (Z.of_nat d)) = bool_decide (n = 0%nat).
Proof.
  intros Hle. destruct (decide (n = 0%nat)) as [->|Hn].
  - rewrite bool_decide_eq_true_2 by done. unfold sklearn.prf_divide.
    case_decide; [done|].
    destruct (true_divide_counts 0 d) as (-> & _); [lia|lia|].
    unfold fl.is_zero, fl.zero. rewrite ratio_num by lia. done.
  - rewrite bool_decide_eq_false_2 by done.
    rewrite prf_divide_pos by lia.
    unfold fl.is_zero, fl.zero. rewrite ratio_num by lia.
    apply bool_decide_eq_false_2. lia.
Qed.

(** *** Closed form of the result *)

Lemma zero_of_pos (q : Q) : (0 < q)%Q → fl.zero q = false.
Proof.
  destruct q as [a b]. unfold Qlt, fl.zero. simpl. intros Hq.
  apply bool_decide_eq_false_2. lia.
Qed.

Lemma class_scores (t p : list Z) (c : Z) :
  length t = length p → c ≠ 0 →
  let y_true := filter (λ x, x ≠ 0) t in
  let y_pred := (observed 0 t p).*2 in
  let P := sklearn.prf_divide (sklearn.tp_sum y_true y_pred c)
                              (sklearn.pred_sum y_pred c) in
  let R := sklearn.prf_divide (sklearn.tp_sum y_true y_pred c)
                              (sklearn.true_sum y_true c) in
  (nan_pair P R).1 = class_precision t p c
  ∧ (nan_pair P R).2 = class_recall t p c
  ∧ fl.div (fl.mul (fl.mul (Real 2) (nan_pair P R).1) (nan_pair P R).2)
           (fl.add (nan_pair P R).1 (nan_pair P R).2)
    = class_f1 t p c.
Proof.
  intros Hlen Hc. cbv zeta. rewrite <- (observed_true 0 t p Hlen).
  rewrite tp_sum_observed, pred_sum_observed, true_sum_observed by done.
  pose proof (true_positives_le_predicted t p c Hc) as Hpred.
  pose proof (true_positives_le_support t p c) as Hsupp.
  unfold nan_pair, class_precision, class_recall, class_f1.
  rewrite !prf_divide_is_zero by done.
  destruct (decide (true_positives t p c = 0%nat)) as [Htp|Htp].
  - rewrite bool_decide_eq_true_2 by done. done.
  - rewrite bool_decide_eq_false_2 by done. cbn [andb fst snd].
    rewrite !prf_divide_pos by lia. cbn [fl.mul fl.add fl.div].
    assert (Hz : fl.zero (ratio (true_positives t p c) (predicted t p c)
                          + ratio (true_positives t p c) (support t c)) = false).
    { apply zero_of_pos.
      pose proof (ratio_pos (true_positives t p c) (predicted t p c)) as Hp.
      pose proof (ratio_pos (true_positives t p c) (support t c)) as Hr.
      assert (0 < ratio (true_positives t p c) (predicted t p c))%Q by (apply Hp; lia).
      assert (0 < ratio (true_positives t p c) (support t c))%Q by (apply Hr; lia).
      lra. }
    rewrite Hz. done.
Qed.

Lemma class_labels_nonzero (t : list Z) (n : option Z) (c : Z) :
  c ∈ class_labels t n → c ≠ 0.
Proof. unfold class_labels. rewrite elem_of_np_arange. lia. Qed.

(** The selection of the observed positions is empty exactly when every
    true label is the background; scikit-learn then rejects it. *)
Lemma filter_nonzero_nil (t : list Z) :
  filter (λ x, x ≠ 0) t = [] ↔ Forall (λ x, x = 0) t.
Proof.
  induction t as [|x t IH]; [by split; [constructor|]|].
  rewrite filter_cons, Forall_cons. case_decide as Hx.
  - split; [done|]. intros [? _]. done.
  - rewrite IH. split; [|tauto]. intros Hall. split; [|done].
    destruct (decide (x = 0)); [done|]. by destruct Hx.
Qed.

Lemma background_or_observed (t : list Z) :
  Forall (λ x, x = 0) t ∨ Exists (λ x, x ≠ 0) t.
Proof.
  destruct (decide (Forall (λ x, x = 0) t)) as [H|H]; [by left|right].
  apply not_Forall_Exists in H; [done|apply _].
Qed.

Lemma background_not_observed (t : list Z) :
  Forall (λ x, x = 0) t → Exists (λ x, x ≠ 0) t → False.
Proof.
  intros Hall (x & Hx & Hne)%Exists_exists.
  rewrite Forall_forall in Hall. by apply Hne, Hall.
Qed.

Lemma check_targets_observed (t p : list Z) :
  length t = length p →
  sklearn.check_targets (observed 0 t p).*1 (observed 0 t p).*2
  = if decide (Forall (λ x, x = 0) t) then Raise ValueError else Ok ().
Proof.
  intros Hlen. unfold sklearn.check_targets.
  rewrite decide_True by (by rewrite !length_fmap).
  rewrite (observed_true 0 t p Hlen).
  destruct (filter (λ x, x ≠ 0) t) as [|x l] eqn:Hf.
  - rewrite decide_True; [done|]. by apply filter_nonzero_nil.
  - rewrite decide_False; [done|]. intros Hall%filter_nonzero_nil. congruence.
Qed.

Lemma get_precision_recall_observed (t p : list Z) (n : option Z) :
  length t = length p →
  get_precision_recall t p 0 n
  = _ ← sklearn.check_targets (observed 0 t p).*1 (observed 0 t p).*2;
    Ok {| precision := class_precision t p <$> class_labels t n;
          recall := class_recall t p <$> class_labels t n;
          f1 := class_f1 t p <$> class_labels t n |}.
Proof.
  intros Hlen. unfold get_precision_recall.
  rewrite (bool_decide_eq_true_2 (length t = length p)) by done.
  cbn [py_assert mbind result_bind].
  rewrite (take_observed_true 0 t p Hlen), (take_observed_pred 0 t p Hlen).
  cbn [mbind result_bind].
  rewrite (bool_decide_eq_true_2 (0 = 0)) by done.
  cbn [py_assert mbind result_bind].
  unfold sklearn.precision_score, sklearn.recall_score.
  destruct (sklearn.check_targets _ _) as [[]|e]; [|done].
  cbn [mbind result_bind].
  rewrite (observed_true 0 t p Hlen). fold (class_labels t n).
  rewrite length_fmap.
  rewrite <- (length_fmap (λ l, sklearn.prf_divide
     (sklearn.tp_sum (filter (λ x, x ≠ 0) t) (observed 0 t p).*2 l)
     (sklearn.pred_sum (observed 0 t p).*2 l)) (class_labels t n)).
  rewrite nan_loop by (by rewrite !length_fmap).
  cbn [mbind result_bind fst snd].
  rewrite !zip_with_fmap_both, f1_score_fmap. cbn [mbind result_bind].
  do 2 f_equal.
  - apply list_fmap_ext. intros i c Hc%list_elem_of_lookup_2%class_labels_nonzero.
    apply (class_scores t p c Hlen Hc).
  - apply list_fmap_ext. intros i c Hc%list_elem_of_lookup_2%class_labels_nonzero.
    apply (class_scores t p c Hlen Hc).
  - apply list_fmap_ext. intros i c Hc%list_elem_of_lookup_2%class_labels_nonzero.
    apply (class_scores t p c Hlen Hc).
Qed.

Lemma get_precision_recall_closed (t p : list Z) (n : option Z) :
  length t = length p → Exists (λ x, x ≠ 0) t →
  get_precision_recall t p 0 n
  = Ok {| precision := class_precision t p <$> class_labels t n;
          recall := class_recall t p <$> class_labels t n;
          f1 := class_f1 t p <$> class_labels t n |}.
Proof.
  intros Hlen Hobs.
  rewrite get_precision_recall_observed, check_targets_observed by done.
  rewrite decide_False; [done|]. intros Hall. by apply (background_not_observed t).
Qed.

Lemma get_precision_recall_no_selection (t p : list Z) (n : option Z) :
  length t = length p → Forall (λ x, x = 0) t →
  get_precision_recall t p 0 n = Raise ValueError.
Proof.
  intros Hlen Hall.
  rewrite get_precision_recall_observed, check_targets_observed by done.
  by rewrite decide_True.
Qed.

Lemma get_precision_recall_cases (t p : list Z) (bg : Z) (n : option Z) :
  (length t = length p ∧ bg = 0 ∧ Exists (λ x, x ≠ 0) t
   ∧ ∃ res, get_precision_recall t p bg n = Ok res)
  ∨ (length t = length p ∧ bg = 0 ∧ Forall (λ x, x = 0) t
     ∧ get_precision_recall t p bg n = Raise ValueError)
  ∨ ((length t ≠ length p ∨ bg ≠ 0)
     ∧ get_precision_recall t p bg n = Raise AssertionError).
Proof.
  destruct (decide (length t = length p)) as [Hlen|Hlen].
  - destruct (decide (bg = 0)) as [->|Hbg].
    + destruct (background_or_observed t) as [Hall|Hobs].
      * right. left. split_and!; try done.
        by apply get_precision_recall_no_selection.
      * left. rewrite get_precision_recall_closed by done. split_and!; eauto.
    + right. right. split; [by right|]. unfold get_precision_recall.
      rewrite (bool_decide_eq_true_2 (length t = length p)) by done.
      cbn [py_assert mbind result_bind].
      rewrite (bool_decide_eq_false_2 (bg = 0)) by done. done.
  - right. right. split; [by left|]. unfold get_precision_recall.
    rewrite (bool_decide_eq_false_2 (length t = length p)) by done. done.
Qed.

(** A returned result, entry by entry. *)
Lemma get_precision_recall_Ok (t p : list Z) (n : option Z) (res : prf) :
  length t = length p → get_precision_recall t p 0 n = Ok res →
  Exists (λ x, x ≠ 0) t
  ∧ res = {| precision := class_precision t p <$> class_labels t n;
             recall := class_recall t p <$> class_labels t n;
             f1 := class_f1 t p <$> class_labels t n |}.
Proof.
  intros Hlen Hres.
  destruct (background_or_observed t) as [Hall|Hobs].
  - rewrite get_precision_recall_no_selection in Hres by done. discriminate Hres.
  - split; [done|]. rewrite get_precision_recall_closed in Hres by done. congruence.
Qed.

(** *** Shape and range of the result *)

Lemma insert_sorted_sorted (x : Z) (l : list Z) :
  StronglySorted Z.lt l → StronglySorted Z.lt (np.insert_sorted x l).
Proof.
  induction 1 as [|y l Hs IH Hall]; simpl.
  - repeat constructor.
  - destruct (decide (x < y)) as [Hxy|Hxy].
    + constructor; [by constructor|]. constructor; [done|].
      eapply Forall_impl; [exact Hall|]. intros z Hz. simpl in Hz. lia.
    + destruct (decide (x = y)) as [->|Hne]; [by constructor|].
      constructor; [done|]. apply Forall_forall. intros z Hz.
      apply elem_of_insert_sorted in Hz as [->|Hz]; [lia|].
      rewrite Forall_forall in Hall. by apply Hall.
Qed.

Lemma np_unique_sorted (a : list Z) : StronglySorted Z.lt (np.unique a).
Proof.
  unfold np.unique. induction a as [|x a IH]; simpl; [constructor|].
  by apply insert_sorted_sorted.
Qed.

Lemma np_unique_NoDup (a : list Z) : NoDup (np.unique a).
Proof.
  induction (np_unique_sorted a) as [|x l _ IH Hall]; constructor; [|done].
  intros Hin. rewrite Forall_forall in Hall. specialize (Hall _ Hin). lia.
Qed.

(** [np.unique] lists each distinct value once, so its length is the
    number of distinct values. *)
Lemma np_unique_length (a : list Z) :
  length (np.unique a) = size (list_to_set a : gset Z).
Proof.
  rewrite <- (size_list_to_set (C := gset Z) (np.unique a)) by apply np_unique_NoDup.
  f_equal. apply set_eq. intros v.
  by rewrite !elem_of_list_to_set, elem_of_np_unique.
Qed.

Lemma class_labels_length (t : list Z) (n : option Z) :
  length (class_labels t n) = class_count t n.
Proof.
  unfold class_labels, class_count, np.arange.
  rewrite length_fmap, length_seq. destruct n; lia.
Qed.

Lemma class_labels_lookup (t : list Z) (n : option Z) (i : nat) :
  (i < class_count t n)%nat → class_labels t n !! i = Some (Z.of_nat (S i)).
Proof.
  intros Hi. rewrite <- class_labels_length in Hi.
  unfold class_labels, np.arange in *. rewrite length_fmap, length_seq in Hi.
  rewrite list_lookup_fmap, lookup_seq_lt by done. simpl. f_equal. lia.
Qed.

Lemma class_precision_range (t p : list Z) (c : Z) :
  c ≠ 0 → fl.unit_or_nan (class_precision t p c).
Proof.
  intros Hc. unfold class_precision. case_decide as Htp; [done|]. simpl.
  apply ratio_bounds; [|by apply true_positives_le_predicted].
  pose proof (true_positives_le_predicted t p c Hc). lia.
Qed.

Lemma class_recall_range (t p : list Z) (c : Z) :
  fl.unit_or_nan (class_recall t p c).
Proof.
  unfold class_recall. case_decide as Htp; [done|]. simpl.
  apply ratio_bounds; [|by apply true_positives_le_support].
  pose proof (true_positives_le_support t p c). lia.
Qed.

Lemma harmonic_mean_range (p r : Q) :
  (0 < p)%Q → (p <= 1)%Q → (0 < r)%Q → (r <= 1)%Q →
  (0 <= 2 * p * r / (p + r))%Q ∧ (2 * p * r / (p + r) <= 1)%Q.
Proof.
  intros Hp Hp1 Hr Hr1. split.
  - apply Qle_shift_div_l; [lra|]. nra.
  - apply Qle_shift_div_r; [lra|]. nra.
Qed.

Lemma class_f1_range (t p : list Z) (c : Z) :
  c ≠ 0 → fl.unit_or_nan (class_f1 t p c).
Proof.
  intros Hc. unfold class_f1. case_decide as Htp; [done|]. simpl.
  pose proof (true_positives_le_predicted t p c Hc) as Hpred.
  pose proof (true_positives_le_support t p c) as Hsupp.
  apply harmonic_mean_range.
  - apply ratio_pos; lia.
  - apply ratio_bounds; lia.
  - apply ratio_pos; lia.
  - apply ratio_bounds; lia.
Qed.

(** A class without ground-truth support has no true positive, and a class
    without true positive has all three scores undefined. *)
Lemma no_support_no_true_positive (t p : list Z) (c : Z) :
  support t c = 0%nat → true_positives t p c = 0%nat.
Proof. pose proof (true_positives_le_support t p c). lia. Qed.

Lemma class_f1_nan_iff (t p : list Z) (c : Z) :
  c ≠ 0 → class_f1 t p c = NaN ↔ true_positives t p c = 0%nat.
Proof.
  intros Hc. unfold class_f1. case_decide; [done|]. split; [done|]. tauto.
Qed.

(** C2 (as the code has it).  For equal-length arrays with at least one
    true label that is not the background (and background 0),
    [get_precision_recall] returns three arrays of length K, where K is
    [n_classes] when it is given and the number of distinct non-background
    values of the true array when it is omitted; entry [i] of each array
    belongs to class [i + 1]: precision and recall are that class's, and f1
    is undefined together with them; and every entry is a real number in
    [0,1] or "undefined". *)
Theorem get_precision_recall_shape (true_classes pred_classes : list Z)
    (n_classes : option Z) :
  length true_classes = length pred_classes →
  Exists (λ t, t ≠ 0) true_classes →
  ∃ res, get_precision_recall true_classes pred_classes 0 n_classes = Ok res
    ∧ class_count true_classes None
      = size (list_to_set (filter (λ t, t ≠ 0) true_classes) : gset Z)
    ∧ length (precision res) = class_count true_classes n_classes
    ∧ length (recall res) = class_count true_classes n_classes
    ∧ length (f1 res) = class_count true_classes n_classes
    ∧ (∀ i, (i < class_count true_classes n_classes)%nat →
         let c := Z.of_nat (S i) in
         precision res !! i = Some (class_precision true_classes pred_classes c)
         ∧ recall res !! i = Some (class_recall true_classes pred_classes c)
         ∧ ∃ x, f1 res !! i = Some x
             ∧ (x = NaN ↔ true_positives true_classes pred_classes c = 0%nat))
    ∧ Forall fl.unit_or_nan (precision res)
    ∧ Forall fl.unit_or_nan (recall res)
    ∧ Forall fl.unit_or_nan (f1 res).
Proof.
  intros Hlen Hobs. eexists. split; [by apply get_precision_recall_closed|].
  cbn [precision recall f1]. rewrite !length_fmap, class_labels_length.
  split_and!; try done.
  - apply np_unique_length.
  - intros i Hi. cbv zeta. rewrite !list_lookup_fmap, class_labels_lookup by done.
    split_and!; try done. eexists. split; [done|].
    apply class_f1_nan_iff. lia.
  - apply Forall_fmap, Forall_forall. intros c Hc%class_labels_nonzero.
    by apply class_precision_range.
  - apply Forall_fmap, Forall_forall. intros c _. apply class_recall_range.
  - apply Forall_fmap, Forall_forall. intros c Hc%class_labels_nonzero.
    by apply class_f1_range.
Qed.

Lemma get_precision_recall_shape_witness :
  let t := [1;2;2;0;1] in
  let p := [1;1;2;2;1] in
  let n := Some 3 in
  length t = length p ∧ Exists (λ x, x ≠ 0) t ∧
  ∃ res, get_precision_recall t p 0 n = Ok res
    ∧ class_count t None = size (list_to_set (filter (λ x, x ≠ 0) t) : gset Z)
    ∧ length (precision res) = class_count t n
    ∧ length (recall res) = class_count t n
    ∧ length (f1 res) = class_count t n
    ∧ (∀ i, (i < class_count t n)%nat →
         let c := Z.of_nat (S i) in
         precision res !! i = Some (class_precision t p c)
         ∧ recall res !! i = Some (class_recall t p c)
         ∧ ∃ x, f1 res !! i = Some x ∧ (x = NaN ↔ true_positives t p c = 0%nat))
    ∧ Forall fl.unit_or_nan (precision res)
    ∧ Forall fl.unit_or_nan (recall res)
    ∧ Forall fl.unit_or_nan (f1 res).
Proof.
  assert (H : Exists (λ x, x ≠ 0) [1;2;2;0;1]) by (by left).
  split; [reflexivity|]. split; [exact H|].
  exact (get_precision_recall_shape [1;2;2;0;1] [1;1;2;2;1] (Some 3) eq_refl H).
Defined.

(** C2 as stated fails: two equal-length arrays with values in [0, 2] whose
    true labels are all background leave nothing to score, scikit-learn
    rejects the empty selection, and no array is returned. *)
Lemma get_precision_recall_all_background_raises :
  length [0; 0] = length [1; 2]
  ∧ Forall (λ x, 0 ≤ x ≤ 2) [0; 0] ∧ Forall (λ x, 0 ≤ x ≤ 2) [1; 2]
  ∧ get_precision_recall [0; 0] [1; 2] 0 (Some 2) = Raise ValueError.
Proof.
  split; [reflexivity|]. split; [repeat constructor; lia|].
  split; [repeat constructor; lia|]. reflexivity.
Qed.

(** C3 (as the code has it).  [get_precision_recall] raises an
    [AssertionError], before anything is computed, exactly when the two
    arrays have different lengths or the background is not 0.  For
    equal-length arrays and background 0 it returns a result exactly when
    some true label is not the background; when every true label is the
    background (or the arrays are empty) scikit-learn raises a
    [ValueError]. *)
Theorem get_precision_recall_asserts (true_classes pred_classes : list Z)
    (background : Z) (n_classes : option Z) :
  (get_precision_recall true_classes pred_classes background n_classes
     = Raise AssertionError
   ↔ length true_classes ≠ length pred_classes ∨ background ≠ 0)
  ∧ (get_precision_recall true_classes pred_classes background n_classes
       = Raise ValueError
     ↔ length true_classes = length pred_classes ∧ background = 0
       ∧ Forall (λ t, t = 0) true_classes)
  ∧ (raises (get_precision_recall true_classes pred_classes background n_classes)
     ↔ length true_classes ≠ length pred_classes ∨ background ≠ 0
       ∨ Forall (λ t, t = 0) true_classes)
  ∧ ((∃ res, get_precision_recall true_classes pred_classes background n_classes
             = Ok res)
     ↔ length true_classes = length pred_classes ∧ background = 0
       ∧ Exists (λ t, t ≠ 0) true_classes).
Proof.
  unfold raises.
  destruct (get_precision_recall_cases true_classes pred_classes background n_classes)
    as [(Hlen & Hbg & Hobs & res & Hres)|[(Hlen & Hbg & Hall & Hr)|(Hbad & Hr)]].
  - rewrite Hres. split_and!; split.
    + discriminate.
    + intros [?|?]; done.
    + discriminate.
    + intros (_ & _ & Hall). by destruct (background_not_observed true_classes).
    + intros [e He]. discriminate He.
    + intros [?|[?|Hall]]; try done. by destruct (background_not_observed true_classes).
    + done.
    + eauto.
  - rewrite Hr. split_and!; split.
    + discriminate.
    + intros [?|?]; done.
    + done.
    + done.
    + auto.
    + eauto.
    + intros [res Hres]. discriminate Hres.
    + intros (_ & _ & Hobs). by destruct (background_not_observed true_classes).
  - rewrite Hr. split_and!; split.
    + done.
    + done.
    + discriminate.
    + intros (? & ? & _). destruct Hbad; done.
    + destruct Hbad; auto.
    + eauto.
    + intros [res Hres]. discriminate Hres.
    + intros (? & ? & _). destruct Hbad; done.
Qed.

(** C3 as stated fails: with equal lengths and background 0 the call still
    fails when no true label differs from the background. *)
Lemma get_precision_recall_equal_lengths_raises :
  length [0; 0] = length [1; 2]
  ∧ get_precision_recall [0; 0] [1; 2] 0 None = Raise ValueError.
Proof. split; reflexivity. Qed.

(** C1 (the code departs from it).  With true labels [1, 2] and predicted
    labels [2, 1] both classes have ground-truth support, yet precision,
    recall and f1 of both come out "undefined": the loop that is meant to
    mark the classes with no ground truth tests [precision == 0 and
    recall == 0], which also holds for a class that is present and never
    predicted correctly. *)
Theorem get_precision_recall_missed_class :
  get_precision_recall [1;2] [2;1] 0 None
  = Ok {| precision := [NaN; NaN]; recall := [NaN; NaN]; f1 := [NaN; NaN] |}
  ∧ support [1;2] 1 = 1%nat ∧ support [1;2] 2 = 1%nat.
Proof. by vm_compute. Qed.

(** ** [load_metrics_csv_as_df] *)

Lemma bind_Ok {A B} (r : result A) (k : A → result B) (b : B) :
  r ≫= k = Ok b ↔ ∃ a, r = Ok a ∧ k a = Ok b.
Proof.
  destruct r as [a|e]; cbn [mbind result_bind].
  - split; [eauto|]. by intros (a' & [= <-] & Hk).
  - split; [done|]. by intros (a' & [=] & _).
Qed.

Lemma loc_Ok (row : Series) (label : string) :
  (∃ v, loc row label = Ok v) ↔ label ∈ s_index row.
Proof.
  unfold loc. destruct (list_find _ _) as [[j c]|] eqn:Hf.
  - apply list_find_Some in Hf as (Hj & -> & _).
    split; [|eauto]. intros _. by eapply list_elem_of_lookup_2.
  - apply list_find_None in Hf. rewrite Forall_forall in Hf.
    split; [by intros [v [=]]|]. intros Hin. by destruct (Hf _ Hin).
Qed.

Lemma emit_loop (row : Series) ds e split prefix (ms : list string) :
  ∀ acc out,
    for_each (emit row ds e split prefix) acc ms = Ok out
    ↔ ∃ recs, out = acc ++ recs ∧ Forall2 (emitted row ds e split prefix) recs ms.
Proof.
  induction ms as [|m ms IH]; intros acc out; cbn [for_each].
  - split.
    + intros [= <-]. exists []. by rewrite app_nil_r.
    + intros (recs & -> & ->%Forall2_nil_inv_r). by rewrite app_nil_r.
  - rewrite bind_Ok. unfold emit at 1. split.
    + intros (s' & Hs & Hrest). apply bind_Ok in Hs as (v & Hv & [= <-]).
      apply IH in Hrest as (recs & -> & Hrecs).
      eexists (_ :: recs). split; [by rewrite <- app_assoc|].
      constructor; [|done]. by exists v.
    + intros (recs & -> & Hrecs).
      apply Forall2_cons_inv_r in Hrecs as (r & recs' & (v & Hv & ->) & Hrecs' & ->).
      eexists. split; [by rewrite Hv|]. apply IH. exists recs'.
      split; [by rewrite <- app_assoc|done].
Qed.

Lemma record_of_Ok (expt_ids : option (list string)) (c : cell_ref) (r : long_row) :
  record_of expt_ids c = Ok r
  ↔ ∃ ds e, dataset_label expt_ids (src_row c) = Ok ds
            ∧ loc (src_row c) "epoch" = Ok e
            ∧ emitted (src_row c) ds e (src_split c) (src_prefix c) r (src_metric c).
Proof.
  unfold record_of, emitted. rewrite bind_Ok. split.
  - intros (ds & Hds & H). apply bind_Ok in H as (e & He & H).
    apply bind_Ok in H as (v & Hv & [= <-]). eauto 10.
  - intros (ds & e & Hds & He & v & Hv & ->). exists ds. split; [done|].
    rewrite He, Hv. done.
Qed.

Lemma emitted_record_of expt_ids row ds e split prefix (f : string → cell_ref)
    (recs : list long_row) (ms : list string) :
  dataset_label expt_ids row = Ok ds → loc row "epoch" = Ok e →
  (∀ m, f m = {| src_row := row; src_split := split; src_prefix := prefix;
                 src_metric := m |}) →
  Forall2 (emitted row ds e split prefix) recs ms
  ↔ Forall2 (λ r c, record_of expt_ids c = Ok r) recs (f <$> ms).
Proof.
  intros Hds He Hf. rewrite Forall2_fmap_r.
  assert (Hrm : ∀ r m, emitted row ds e split prefix r m
                       ↔ record_of expt_ids (f m) = Ok r).
  { intros r m. rewrite record_of_Ok, Hf. cbn. split.
    - intros Hem. by exists ds, e.
    - intros (ds' & e' & Hds' & He' & Hem). congruence. }
  split; intros H; eapply Forall2_impl; try exact H; intros r m; apply Hrm.
Qed.

Lemma row_step_Ok (ms : list string) expt_ids (test : bool) (row : Series) acc out :
  row_step ms expt_ids test acc row = Ok out
  ↔ readable expt_ids row
    ∧ ∃ recs, out = acc ++ recs
        ∧ Forall2 (λ r c, record_of expt_ids c = Ok r) recs (row_entries test ms row).
Proof.
  unfold row_step, readable, row_entries. rewrite bind_Ok. split.
  - intros (ds & Hds & H). destruct test.
    + apply bind_Ok in H as (e & He & H). apply emit_loop in H as (recs & -> & Hrecs).
      split; [eauto|]. exists recs. split; [done|].
      by apply (proj1 (emitted_record_of _ _ _ _ _ _ _ _ _ Hds He (λ _, eq_refl))).
    + apply bind_Ok in H as (e & He & H). apply bind_Ok in H as (mid & Hmid & H).
      apply bind_Ok in H as (e' & He' & H).
      apply emit_loop in Hmid as (recs1 & -> & Hrecs1).
      apply emit_loop in H as (recs2 & -> & Hrecs2).
      split; [eauto|]. exists (recs1 ++ recs2). split; [by rewrite app_assoc|].
      apply Forall2_app.
      * by apply (proj1 (emitted_record_of _ _ _ _ _ _ _ _ _ Hds He (λ _, eq_refl))).
      * by apply (proj1 (emitted_record_of _ _ _ _ _ _ _ _ _ Hds He' (λ _, eq_refl))).
  - intros ((ds & e & Hds & He) & recs & -> & Hrecs). exists ds. split; [done|].
    destruct test.
    + rewrite He. cbn [mbind result_bind]. apply emit_loop. exists recs.
      split; [done|].
      by apply (proj2 (emitted_record_of _ _ _ _ _ _ _ _ _ Hds He (λ _, eq_refl))).
    + apply Forall2_app_inv_r in Hrecs as (recs1 & recs2 & H1 & H2 & ->).
      rewrite He. cbn [mbind result_bind]. apply bind_Ok. exists (acc ++ recs1). split.
      * apply emit_loop. exists recs1. split; [done|].
        by apply (proj2 (emitted_record_of _ _ _ _ _ _ _ _ _ Hds He (λ _, eq_refl))).
      * apply emit_loop. exists recs2. split; [by rewrite app_assoc|].
        by apply (proj2 (emitted_record_of _ _ _ _ _ _ _ _ _ Hds He (λ _, eq_refl))).
Qed.

Lemma rows_loop (ms : list string) expt_ids (test : bool) (rows : list Series) :
  ∀ acc out,
    for_each (row_step ms expt_ids test) acc rows = Ok out
    ↔ Forall (readable expt_ids) rows
      ∧ ∃ recs, out = acc ++ recs
          ∧ Forall2 (λ r c, record_of expt_ids c = Ok r) recs (wide_entries test ms rows).
Proof.
  induction rows as [|row rows IH]; intros acc out; cbn [for_each].
  - split.
    + intros [= <-]. split; [constructor|]. exists []. rewrite app_nil_r. by split.
    + intros (_ & recs & -> & ->%Forall2_nil_inv_r). by rewrite app_nil_r.
  - rewrite bind_Ok. unfold wide_entries. rewrite bind_cons. split.
    + intros (mid & Hmid & H). apply row_step_Ok in Hmid as (Hread & recs1 & -> & H1).
      apply IH in H as (Hall & recs2 & -> & H2).
      split; [by constructor|]. exists (recs1 ++ recs2).
      split; [by rewrite app_assoc|]. by apply Forall2_app.
    + intros (Hall & recs & -> & Hrecs). apply Forall_cons in Hall as [Hread Hall].
      apply Forall2_app_inv_r in Hrecs as (recs1 & recs2 & H1 & H2 & ->).
      exists (acc ++ recs1). split.
      * apply row_step_Ok. eauto.
      * apply IH. split; [done|]. exists recs2. split; [by rewrite app_assoc|done].
Qed.

(** The loader returns a table exactly when the file can be read, the header
    of every row can be read, every cell it refers to exists, and at least
    one record was collected; the table then holds the records of the cells
    in the order the loops visit them. *)
Lemma load_Ok (read_csv : string → result DataFrame) (file : string)
    (ms : list string) expt_ids (test : bool) (out : list long_row) :
  load_metrics_csv_as_df read_csv file ms expt_ids test = Ok out
  ↔ ∃ df, read_csv file = Ok df
      ∧ Forall (readable expt_ids) (iterrows df)
      ∧ out ≠ []
      ∧ Forall2 (λ r c, record_of expt_ids c = Ok r) out
          (wide_entries test ms (iterrows df)).
Proof.
  unfold load_metrics_csv_as_df. rewrite bind_Ok. split.
  - intros (df & Hdf & H). apply bind_Ok in H as (mdf & Hloop & Hcat).
    apply rows_loop in Hloop as (Hall & recs & -> & Hrecs). rewrite app_nil_l in Hcat.
    destruct recs as [|r recs]; [done|]. injection Hcat as <-.
    exists df. by split_and!.
  - intros (df & Hdf & Hall & Hne & Hrecs). exists df. split; [done|].
    apply bind_Ok. exists out. split.
    + apply rows_loop. split; [done|]. by exists out.
    + by destruct out.
Qed.

Lemma record_of_made_from (expt_ids : option (list string)) (c : cell_ref) (r : long_row) :
  record_of expt_ids c = Ok r ↔ made_from expt_ids r c.
Proof.
  rewrite record_of_Ok. unfold emitted, made_from. split.
  - intros (ds & e & Hds & He & v & Hv & ->). by cbn.
  - intros (Hds & He & Hsplit & Hloss & Hv). exists (dataset r), (epoch r).
    split_and!; try done. exists (val r). split; [done|].
    destruct r. cbn in *. by subst.
Qed.

Lemma row_entries_length (test : bool) (ms : list string) (row : Series) :
  length (row_entries test ms row) = ((if test then 1 else 2) * length ms)%nat.
Proof.
  unfold row_entries. destruct test; rewrite ?length_app, !length_fmap; lia.
Qed.

Lemma wide_entries_length (test : bool) (ms : list string) (rows : list Series) :
  length (wide_entries test ms rows)
  = ((if test then 1 else 2) * length rows * length ms)%nat.
Proof.
  unfold wide_entries. induction rows as [|row rows IH]; [simpl; lia|].
  rewrite bind_cons, length_app, IH, row_entries_length. simpl. destruct test; lia.
Qed.

Lemma iterrows_length (df : DataFrame) : length (iterrows df) = length (df_rows df).
Proof. apply length_fmap. Qed.

Lemma iterrows_index (df : DataFrame) (row : Series) :
  row ∈ iterrows df → s_index row = df_columns df.
Proof. unfold iterrows. by intros (cells & -> & _)%list_elem_of_fmap. Qed.

(** C7 (as the code has it).  The loader returns a table exactly when the
    file is read, the dataset label and epoch of every source row can be
    read, every referenced column exists and at least one record is
    collected.  The table then has exactly one record per source row,
    metric and split, in the order of the loops: with [test=True] one
    record of dtype "test" per (source row, metric), taken from column
    [test_<metric>]; with [test=False] one record of dtype "val" taken from
    [val_<metric>] and one of dtype "train" taken from [tr_<metric>] per
    (source row, metric); each record carries its source row's epoch and
    dataset label. *)
Theorem load_one_record_per_cell (read_csv : string → result DataFrame)
    (metric_file : string) (metrics_list : list string)
    (expt_ids : option (list string)) (test : bool) (out : list long_row) :
  (load_metrics_csv_as_df read_csv metric_file metrics_list expt_ids test = Ok out
   ↔ ∃ metrics, read_csv metric_file = Ok metrics
       ∧ Forall (readable expt_ids) (iterrows metrics)
       ∧ out ≠ []
       ∧ Forall2 (made_from expt_ids) out
           (wide_entries test metrics_list (iterrows metrics)))
  ∧ (load_metrics_csv_as_df read_csv metric_file metrics_list expt_ids test = Ok out
     → ∃ metrics, read_csv metric_file = Ok metrics
         ∧ length out = ((if test then 1 else 2) * length (df_rows metrics)
                         * length metrics_list)%nat).
Proof.
  assert (Hiff : load_metrics_csv_as_df read_csv metric_file metrics_list expt_ids test
                 = Ok out
     ↔ ∃ metrics, read_csv metric_file = Ok metrics
         ∧ Forall (readable expt_ids) (iterrows metrics)
         ∧ out ≠ []
         ∧ Forall2 (made_from expt_ids) out
             (wide_entries test metrics_list (iterrows metrics))).
  { rewrite load_Ok. split; intros (df & Hdf & Hall & Hne & Hrecs); exists df;
      split_and!; try done; eapply Forall2_impl; try exact Hrecs;
      intros r c; apply record_of_made_from. }
  split; [exact Hiff|].
  intros (df & Hdf & _ & _ & Hrecs)%Hiff. exists df. split; [done|].
  apply Forall2_length in Hrecs.
  by rewrite Hrecs, wide_entries_length, iterrows_length.
Qed.

Lemma load_one_record_per_cell_witness :
  let read_csv := λ _ : string, Ok two_epoch_log in
  let out :=
    [ {| dataset := PyFloat (Real 0); epoch := Real 0; dtype := "test";
         loss := "loss"; val := Real (1 # 2) |};
      {| dataset := PyFloat (Real 0); epoch := Real 1; dtype := "test";
         loss := "loss"; val := Real (1 # 4) |} ] in
  load_metrics_csv_as_df read_csv "metrics.csv" ["loss"] None true = Ok out
  ∧ ∃ metrics, read_csv "metrics.csv" = Ok metrics
      ∧ length out = (1 * length (df_rows metrics) * length ["loss"])%nat.
Proof.
  split; [reflexivity|].
  exact (proj2 (load_one_record_per_cell (λ _, Ok two_epoch_log) "metrics.csv"
                  ["loss"] None true _) eq_refl).
Defined.

(** C7 as stated fails: in test mode a log with two epochs of one dataset
    gives two records for the same (dataset, metric) pair. *)
Lemma load_test_two_epochs :
  ∃ out,
    load_metrics_csv_as_df (λ _, Ok two_epoch_log) "metrics.csv" ["loss"] None true
    = Ok out
    ∧ ¬ one_row_per_dataset_metric out.
Proof.
  eexists. split; [reflexivity|]. intros H.
  specialize (H 0%nat 1%nat _ _ eq_refl eq_refl eq_refl eq_refl). discriminate H.
Qed.

(** C9. When a column the loader refers to ([test_<metric>] in test mode,
    [val_<metric>] or [tr_<metric>] otherwise, for a metric of the list) is
    missing from the table, the call raises and returns no table. *)
Theorem load_missing_column (read_csv : string → result DataFrame)
    (metric_file : string) (metrics_list : list string)
    (expt_ids : option (list string)) (test : bool)
    (metrics : DataFrame) (metric prefix : string) :
  read_csv metric_file = Ok metrics →
  metric ∈ metrics_list →
  prefix ∈ (if test then ["test_"] else ["val_"; "tr_"]) →
  (prefix +:+ metric) ∉ df_columns metrics →
  raises (load_metrics_csv_as_df read_csv metric_file metrics_list expt_ids test).
Proof.
  intros Hdf Hm Hprefix Hmissing.
  destruct (load_metrics_csv_as_df read_csv metric_file metrics_list expt_ids test)
    as [out|e] eqn:Hload; [|by exists e].
  exfalso. apply load_Ok in Hload as (df & Hdf' & _ & Hne & Hrecs).
  assert (df = metrics) as -> by congruence.
  destruct (iterrows metrics) as [|row rows] eqn:Hrows.
  { apply Forall2_nil_inv_r in Hrecs. done. }
  assert (Hrow : row ∈ iterrows metrics) by (rewrite Hrows; by left).
  assert (∃ split, ({| src_row := row; src_split := split; src_prefix := prefix;
                       src_metric := metric |})
                   ∈ wide_entries test metrics_list (row :: rows))
    as (split & Hcell).
  { unfold wide_entries. rewrite bind_cons. unfold row_entries. destruct test.
    - apply list_elem_of_singleton in Hprefix as ->. exists "test".
      apply elem_of_app. left. apply list_elem_of_fmap. eauto.
    - apply elem_of_cons in Hprefix as [->|Hprefix].
      + exists "val". rewrite !elem_of_app. left. left.
        apply list_elem_of_fmap. eauto.
      + apply list_elem_of_singleton in Hprefix as ->. exists "train".
        rewrite !elem_of_app. left. right. apply list_elem_of_fmap. eauto. }
  apply list_elem_of_lookup in Hcell as (i & Hi).
  destruct (Forall2_lookup_r _ _ _ _ _ Hrecs Hi) as (r & _ & Hr).
  apply record_of_Ok in Hr as (ds & e & _ & _ & v & Hv & _). cbn in Hv.
  apply Hmissing. rewrite <- (iterrows_index metrics row Hrow).
  apply loc_Ok. eauto.
Qed.

Lemma load_missing_column_witness :
  let read_csv := λ _ : string, Ok three_epoch_log in
  read_csv "metrics.csv" = Ok three_epoch_log
  ∧ "loss" ∈ ["loss"; "fc"]
  ∧ "test_" ∈ ["test_"]
  ∧ (("test_" +:+ "loss") ∉ df_columns three_epoch_log)
  ∧ raises (load_metrics_csv_as_df read_csv "metrics.csv" ["loss"; "fc"] None true).
Proof.
  assert (H1 : "loss" ∈ ["loss"; "fc"]) by (by left).
  assert (H2 : "test_" ∈ ["test_"]) by (by left).
  assert (H3 : ("test_" +:+ "loss") ∉ df_columns three_epoch_log).
  { intros H. vm_compute in H. repeat (apply elem_of_cons in H as [H|H]; [discriminate H|]).
    by apply elem_of_nil in H. }
  split_and!; try done.
  exact (load_missing_column (λ _, Ok three_epoch_log) "metrics.csv" ["loss"; "fc"]
           None true three_epoch_log "loss" "test_" eq_refl H1 H2 H3).
Defined.

Lemma Forall2_filter {A B} (R : A → B → Prop) (P : A → Prop) (Q : B → Prop)
    `{!∀ x, Decision (P x)} `{!∀ y, Decision (Q y)} (l : list A) (k : list B) :
  (∀ x y, R x y → (P x ↔ Q y)) →
  Forall2 R l k → Forall2 R (filter P l) (filter Q k).
Proof.
  intros HPQ. induction 1 as [|x y l k Hxy _ IH]; [constructor|].
  rewrite !filter_cons. specialize (HPQ x y Hxy).
  destruct (decide (P x)), (decide (Q y)); try tauto. by constructor.
Qed.

Lemma Forall2_exists {A B} (R : A → B → Prop) (k : list B) :
  Forall (λ y, ∃ x, R x y) k → ∃ l, Forall2 R l k.
Proof.
  induction 1 as [|y k [x Hx] _ [l IH]]; [by exists []|].
  exists (x :: l). by constructor.
Qed.

Lemma val_cells (ms : list string) (rows : list Series) :
  filter (λ c, src_split c = "val") (wide_entries false ms rows)
  = (λ rm, {| src_row := rm.1; src_split := "val"; src_prefix := "val_";
               src_metric := rm.2 |}) <$> val_entries ms rows.
Proof.
  unfold wide_entries, val_entries. induction rows as [|row rows IH]; [done|].
  rewrite !bind_cons, filter_app, fmap_app, IH. f_equal.
  unfold row_entries. rewrite filter_app.
  rewrite <- list_fmap_compose.
  assert (H1 : ∀ l : list string,
    filter (λ c, src_split c = "val")
      ((λ m, {| src_row := row; src_split := "val"; src_prefix := "val_";
                src_metric := m |}) <$> l)
    = (λ m, {| src_row := row; src_split := "val"; src_prefix := "val_";
               src_metric := m |}) <$> l).
  { induction l as [|m l IHl]; [done|]. rewrite fmap_cons, filter_cons.
    by rewrite decide_True, IHl. }
  assert (H2 : ∀ l : list string,
    filter (λ c, src_split c = "val")
      ((λ m, {| src_row := row; src_split := "train"; src_prefix := "tr_";
                src_metric := m |}) <$> l) = []).
  { induction l as [|m l IHl]; [done|]. rewrite fmap_cons, filter_cons.
    by rewrite decide_False. }
  by rewrite H1, H2, app_nil_r.
Qed.

(** Without experiment ids, every row of a table that has the [dataset] and
    [epoch] columns has a readable header. *)
Lemma readable_without_expt_ids (df : DataFrame) :
  "dataset" ∈ df_columns df → "epoch" ∈ df_columns df →
  Forall (readable None) (iterrows df).
Proof.
  intros Hd He. apply Forall_forall. intros row Hrow.
  pose proof (iterrows_index df row Hrow) as Hidx.
  destruct (proj2 (loc_Ok row "dataset")) as [d Hld]; [by rewrite Hidx|].
  destruct (proj2 (loc_Ok row "epoch")) as [e Hle]; [by rewrite Hidx|].
  unfold readable, dataset_label. rewrite Hld. cbn [mbind result_bind].
  destruct (fl.eqb d (Real (-1))); eauto.
Qed.

(** The "val" rows of a loaded table, in order: one per (source row,
    metric), read from that row. *)
Lemma load_val_rows (read_csv : string → result DataFrame)
    (metric_file : string) (metrics_list : list string)
    (expt_ids : option (list string)) (metrics : DataFrame) :
  read_csv metric_file = Ok metrics →
  df_rows metrics ≠ [] →
  metrics_list ≠ [] →
  Forall (readable expt_ids) (iterrows metrics) →
  (∀ m, m ∈ metrics_list →
     ("val_" +:+ m) ∈ df_columns metrics ∧ ("tr_" +:+ m) ∈ df_columns metrics) →
  ∃ out,
    load_metrics_csv_as_df read_csv metric_file metrics_list expt_ids false = Ok out
    ∧ Forall2 (λ r rm, loc rm.1 "epoch" = Ok (epoch r)
                        ∧ loss r = rm.2
                        ∧ loc rm.1 ("val_" +:+ rm.2) = Ok (val r))
        (with_dtype "val" out) (val_entries metrics_list (iterrows metrics)).
Proof.
  intros Hdf Hrows Hms Hread Hcols.
  destruct (Forall2_exists (λ r c, record_of expt_ids c = Ok r)
              (wide_entries false metrics_list (iterrows metrics))) as [out Hout].
  { apply Forall_forall. intros c Hc. unfold wide_entries in Hc.
    apply list_elem_of_bind in Hc as (row & Hc & Hrow).
    rewrite Forall_forall in Hread. destruct (Hread row Hrow) as (ds & e & Hds & He).
    assert (Hloc : ∀ label, label ∈ df_columns metrics → ∃ v, loc row label = Ok v).
    { intros label Hl. apply loc_Ok. by rewrite (iterrows_index metrics row Hrow). }
    unfold row_entries in Hc. apply elem_of_app in Hc as [Hc|Hc];
      apply list_elem_of_fmap in Hc as (m & -> & Hm);
      destruct (Hcols m Hm) as [Hval Htr].
    - destruct (Hloc _ Hval) as [v Hv]. eexists. apply record_of_Ok.
      exists ds, e. split_and!; try done. by exists v.
    - destruct (Hloc _ Htr) as [v Hv]. eexists. apply record_of_Ok.
      exists ds, e. split_and!; try done. by exists v. }
  exists out. split.
  - apply load_Ok. exists metrics. split_and!; try done.
    intros ->. apply Forall2_length in Hout.
    rewrite wide_entries_length, iterrows_length in Hout. simpl in Hout.
    destruct (df_rows metrics); [done|]. destruct metrics_list; [done|].
    simpl in Hout. lia.
  - unfold with_dtype.
    pose proof (Forall2_filter _ (λ r, dtype r = "val") (λ c, src_split c = "val")
                  _ _ (λ r c (H : record_of expt_ids c = Ok r),
                         match proj1 (record_of_made_from _ _ _) H with
                         | conj _ (conj _ (conj Hd _)) =>
                             conj (λ E, eq_trans (eq_sym Hd) E) (λ E, eq_trans Hd E)
                         end) Hout) as Hval.
    rewrite val_cells, Forall2_fmap_r in Hval.
    eapply Forall2_impl; [exact Hval|]. intros r [row m] Hr. cbn in *.
    apply record_of_made_from in Hr as (_ & He & _ & Hl & Hv). by cbn in *.
Qed.

(** What [row[label]] reads is the cell of the raw row at the position of
    the first column with that name. *)
Lemma list_find_column_index (label : string) (columns : list string) :
  fst <$> list_find (λ c, c = label) columns = column_index label columns.
Proof.
  induction columns as [|c columns IH]; [done|]. cbn [list_find column_index].
  case_decide; [done|]. rewrite <- IH.
  by destruct (list_find (λ c, c = label) columns) as [[j c']|].
Qed.

Lemma loc_first_column (row : Series) (label : string) (v : float64) :
  loc row label = Ok v →
  v = default NaN (j ← column_index label (s_index row); s_values row !! j).
Proof.
  unfold loc. rewrite <- list_find_column_index.
  destruct (list_find (λ c, c = label) (s_index row)) as [[j c]|]; [|done].
  by intros [= <-].
Qed.

Lemma Forall2_fmap_eq {A B C} (f : A → C) (g : B → C) (l : list A) (k : list B) :
  Forall2 (λ x y, f x = g y) l k → f <$> l = g <$> k.
Proof. induction 1 as [|x y l k Hxy _ IH]; [done|]. by rewrite !fmap_cons, Hxy, IH. Qed.

Lemma val_entries_table (df : DataFrame) (ms : list string) :
  (λ rm : Series * string,
     (default NaN (j ← column_index "epoch" (s_index rm.1); s_values rm.1 !! j),
      rm.2,
      default NaN (j ← column_index ("val_" +:+ rm.2) (s_index rm.1);
                   s_values rm.1 !! j)))
    <$> val_entries ms (iterrows df)
  = val_table df ms.
Proof.
  unfold val_entries, val_table, iterrows, cell.
  induction (df_rows df) as [|cells rows IH]; [done|].
  rewrite fmap_cons, !bind_cons, fmap_app, IH. f_equal.
  by rewrite <- list_fmap_compose.
Qed.

(** C8 (as the code has it).  Round trip.  Take a wide table with at least
    one row, whose rows have a readable dataset label and epoch, and a
    non-empty list of metrics whose [val_] and [tr_] columns are all
    present.  Loading it in non-test mode succeeds, and the rows of the
    result with dtype "val", read as (epoch, metric, value), are exactly the
    cells of the table: for each raw row in order and each metric in order,
    the row's cell in column [epoch], the metric name, and the row's cell in
    column [val_<metric>]. *)
Theorem load_val_round_trip (read_csv : string → result DataFrame)
    (metric_file : string) (metrics_list : list string)
    (expt_ids : option (list string)) (metrics : DataFrame) :
  read_csv metric_file = Ok metrics →
  df_rows metrics ≠ [] →
  metrics_list ≠ [] →
  Forall (readable expt_ids) (iterrows metrics) →
  (∀ m, m ∈ metrics_list →
     ("val_" +:+ m) ∈ df_columns metrics ∧ ("tr_" +:+ m) ∈ df_columns metrics) →
  ∃ out,
    load_metrics_csv_as_df read_csv metric_file metrics_list expt_ids false = Ok out
    ∧ (λ r, (epoch r, loss r, val r)) <$> with_dtype "val" out
      = val_table metrics metrics_list.
Proof.
  intros Hdf Hrows Hms Hread Hcols.
  destruct (load_val_rows read_csv metric_file metrics_list expt_ids metrics
              Hdf Hrows Hms Hread Hcols) as (out & Hload & Hval).
  exists out. split; [done|].
  rewrite <- val_entries_table. apply Forall2_fmap_eq.
  eapply Forall2_impl; [exact Hval|]. intros r rm (He & Hl & Hv). cbn beta.
  by rewrite <- (loc_first_column _ _ _ He), <- (loc_first_column _ _ _ Hv), Hl.
Qed.

Lemma load_val_round_trip_witness :
  let read_csv := λ _ : string, Ok three_epoch_log in
  let metrics_list := ["loss"; "fc"] in
  read_csv "metrics.csv" = Ok three_epoch_log
  ∧ df_rows three_epoch_log ≠ []
  ∧ metrics_list ≠ []
  ∧ Forall (readable None) (iterrows three_epoch_log)
  ∧ (∀ m, m ∈ metrics_list →
       ("val_" +:+ m) ∈ df_columns three_epoch_log
       ∧ ("tr_" +:+ m) ∈ df_columns three_epoch_log)
  ∧ val_table three_epoch_log metrics_list
    = [ (Real 0, "loss", Real 8); (Real 0, "fc", Real (1 # 3));
        (Real 1, "loss", Real 6); (Real 1, "fc", Real (1 # 2));
        (Real 2, "loss", Real 4); (Real 2, "fc", Real (3 # 5)) ]
  ∧ ∃ out,
      load_metrics_csv_as_df read_csv "metrics.csv" metrics_list None false = Ok out
      ∧ (λ r, (epoch r, loss r, val r)) <$> with_dtype "val" out
        = val_table three_epoch_log metrics_list.
Proof.
  assert (H1 : df_rows three_epoch_log ≠ []) by discriminate.
  assert (H2 : ["loss"; "fc"] ≠ []) by discriminate.
  assert (H3 : Forall (readable None) (iterrows three_epoch_log)).
  { repeat constructor; eexists _, _; split; vm_compute; reflexivity. }
  assert (H4 : ∀ m, m ∈ ["loss"; "fc"] →
            ("val_" +:+ m) ∈ df_columns three_epoch_log
            ∧ ("tr_" +:+ m) ∈ df_columns three_epoch_log).
  { intros m Hm. repeat (apply elem_of_cons in Hm as [->|Hm]);
      [| |by apply elem_of_nil in Hm]; split; apply list_elem_of_In; simpl; auto 10. }
  split_and!; try done.
  exact (load_val_round_trip (λ _, Ok three_epoch_log) "metrics.csv" ["loss"; "fc"]
           None three_epoch_log eq_refl H1 H2 H3 H4).
Defined.

(** C8 as stated fails: a wide table with all the columns and no row cannot
    be loaded, since [pd.concat] has nothing to concatenate; no long table
    is returned from which the values could be recovered. *)
Lemma load_empty_log_raises :
  (∀ m, m ∈ ["loss"; "fc"] →
     ("val_" +:+ m) ∈ df_columns empty_log ∧ ("tr_" +:+ m) ∈ df_columns empty_log)
  ∧ val_table empty_log ["loss"; "fc"] = []
  ∧ load_metrics_csv_as_df (λ _, Ok empty_log) "metrics.csv" ["loss"; "fc"] None false
    = Raise ValueError.
Proof.
  split; [|split; reflexivity].
  intros m Hm. repeat (apply elem_of_cons in Hm as [->|Hm]);
    [| |by apply elem_of_nil in Hm]; split; apply list_elem_of_In; simpl; auto 10.
Qed.

(** The synthetic three-row table with two metrics: the "val" rows of the
    long table give back the six [val_] cells, keyed by epoch and metric. *)
Example load_three_epoch_val :
  ∃ out,
    load_metrics_csv_as_df (λ _, Ok three_epoch_log) "metrics.csv" ["loss"; "fc"]
      None false = Ok out
    ∧ (λ r, (epoch r, loss r, val r)) <$> with_dtype "val" out
      = [ (Real 0, "loss", Real 8); (Real 0, "fc", Real (1 # 3));
          (Real 1, "loss", Real 6); (Real 1, "fc", Real (1 # 2));
          (Real 2, "loss", Real 4); (Real 2, "fc", Real (3 # 5)) ].
Proof. eexists. split; [reflexivity|]. by vm_compute. Qed.

(** * Further properties *)

(** ** [run_lengths] *)

Lemma np_max_in_range (dt : np.int_dtype) (a : list Z) (mx : Z) :
  np.max a = Ok mx → has_dtype dt a →
  mx ∈ a ∧ Forall (λ x, x ≤ mx) a ∧ np.iinfo_min dt ≤ mx ≤ np.iinfo_max dt.
Proof.
  intros Hmax Hdt. assert (Hne : a ≠ []) by (by intros ->).
  destruct (np_max_spec a Hne) as (mx' & Hmax' & Hin & Hle).
  assert (mx' = mx) as -> by congruence. split_and!; try done;
    unfold has_dtype in Hdt; rewrite Forall_forall in Hdt; by apply Hdt.
Qed.

(** X1. On a non-empty array of dtype [dt], [run_lengths] raises a
    [KeyError] exactly when the array holds a negative entry (its key is not
    among 0..max) or the largest value of the dtype (then
    [np.max(array) + 1] wraps around and no key is built), and returns a
    mapping exactly when every entry is non-negative and below that largest
    value. *)
Theorem run_lengths_key_error (dt : np.int_dtype) (array : list Z) :
  array ≠ [] → has_dtype dt array →
  (run_lengths dt array = Raise KeyError
   ↔ Exists (λ x, x < 0 ∨ x = np.iinfo_max dt) array)
  ∧ ((∃ seqs, run_lengths dt array = Ok seqs)
     ↔ Forall (λ x, 0 ≤ x < np.iinfo_max dt) array).
Proof.
  intros Hne Hdt.
  destruct (decide (Forall (λ x, 0 ≤ x < np.iinfo_max dt) array)) as [Hpos|Hneg].
  - destruct (run_lengths_ok dt array Hne Hpos) as (mx & m & _ & _ & _ & Hrun & _).
    rewrite Hrun. split; split; try done; eauto.
    intros (x & Hx & Hbad)%Exists_exists.
    rewrite Forall_forall in Hpos. specialize (Hpos x Hx). simpl in Hpos. lia.
  - assert (Hex : Exists (λ x, x < 0 ∨ x = np.iinfo_max dt) array).
    { apply not_Forall_Exists in Hneg; [|apply _].
      apply Exists_exists in Hneg as (x & Hx & Hbad). apply Exists_exists.
      exists x. split; [done|].
      unfold has_dtype in Hdt. rewrite Forall_forall in Hdt. specialize (Hdt x Hx).
      simpl in *. lia. }
    destruct (np_max_spec array Hne) as (mx & Hmax & _).
    destruct (np_max_in_range dt array mx Hmax Hdt) as (Hin & Hle & Hmx).
    assert (Hrun : run_lengths dt array = Raise KeyError).
    { apply (run_lengths_key_missing dt array mx Hmax).
      destruct (decide (mx = np.iinfo_max dt)) as [->|Hlt].
      - rewrite np_add_overflow. apply Exists_exists. exists (np.iinfo_max dt).
        split; [done|]. pose proof (np_iinfo_min_nonpos dt). lia.
      - rewrite np_add_in_range by lia.
        apply Exists_exists in Hex as (x & Hx & Hbad). apply Exists_exists.
        exists x. split; [done|]. rewrite Forall_forall in Hle.
        specialize (Hle x Hx). simpl in Hle. lia. }
    rewrite Hrun. split; split; try done.
    intros [seqs Hs]. discriminate Hs.
Qed.

Lemma run_lengths_key_error_witness :
  [1; -2; 1] ≠ [] ∧ has_dtype np.int16 [1; -2; 1]
  ∧ (run_lengths np.int16 [1; -2; 1] = Raise KeyError
     ↔ Exists (λ x, x < 0 ∨ x = np.iinfo_max np.int16) [1; -2; 1])
  ∧ ((∃ seqs, run_lengths np.int16 [1; -2; 1] = Ok seqs)
     ↔ Forall (λ x, 0 ≤ x < np.iinfo_max np.int16) [1; -2; 1]).
Proof.
  assert (H1 : [1; -2; 1] ≠ []) by discriminate.
  assert (H2 : has_dtype np.int16 [1; -2; 1]) by (repeat constructor; vm_compute; done).
  split; [exact H1|]. split; [exact H2|].
  exact (run_lengths_key_error np.int16 [1; -2; 1] H1 H2).
Defined.

Lemma lengths_of_positive (v : Z) (gs : list (Z * nat)) :
  Forall (λ g, (0 < g.2)%nat) gs → Forall (λ n, (0 < n)%nat) (lengths_of v gs).
Proof.
  intros Hpos. unfold lengths_of. apply Forall_fmap.
  apply Forall_forall. intros g Hg%list_elem_of_filter.
  rewrite Forall_forall in Hpos. apply Hpos. tauto.
Qed.

Lemma lengths_of_sum_le (v : Z) (gs : list (Z * nat)) :
  (sum_list (lengths_of v gs) ≤ sum_list gs.*2)%nat.
Proof.
  induction gs as [|g gs IH]; [done|].
  rewrite lengths_of_cons, fmap_cons. case_decide; simpl; lia.
Qed.

(** X2. No recorded run is empty, and the runs recorded under one key
    together never exceed the length of the array. *)
Theorem run_lengths_positive (dt : np.int_dtype) (array : list Z)
    (seqs : gmap Z (list nat)) (k : Z) (l : list nat) :
  run_lengths dt array = Ok seqs → seqs !! k = Some l →
  Forall (λ n, (0 < n)%nat) l ∧ (sum_list l ≤ length array)%nat.
Proof.
  intros Hrun Hk.
  destruct (run_lengths_Ok dt array seqs Hrun) as (mx & _ & _ & Hlook).
  rewrite Hlook in Hk. case_decide; [|done]. injection Hk as <-.
  destruct (groupby_maximal_runs array) as (He & Hp & _). split.
  - by apply lengths_of_positive.
  - rewrite <- He at 2. rewrite expand_length. apply lengths_of_sum_le.
Qed.

Lemma run_lengths_positive_witness :
  let seqs : gmap Z (list nat) := list_to_map [(0, [1%nat]); (1, [2; 1]%nat)] in
  run_lengths np.int64 [1; 1; 0; 1] = Ok seqs
  ∧ seqs !! 1 = Some [2; 1]%nat
  ∧ Forall (λ n, (0 < n)%nat) [2; 1]%nat
  ∧ (sum_list [2; 1]%nat ≤ length [1; 1; 0; 1])%nat.
Proof.
  assert (H1 : run_lengths np.int64 [1; 1; 0; 1]
               = Ok (list_to_map [(0, [1%nat]); (1, [2; 1]%nat)])) by (by vm_compute).
  assert (H2 : (list_to_map [(0, [1%nat]); (1, [2; 1]%nat)] : gmap Z (list nat)) !! 1
               = Some [2; 1]%nat) by (by vm_compute).
  split; [exact H1|]. split; [exact H2|].
  exact (run_lengths_positive np.int64 [1; 1; 0; 1] _ 1 [2; 1]%nat H1 H2).
Defined.

Lemma groupby_from_app (a b : list Z) (y : Z) : ∀ key n,
  last (key :: a) ≠ Some y →
  groupby_from key n (a ++ y :: b) = groupby_from key n a ++ groupby_from y 1 b.
Proof.
  induction a as [|x a IH]; intros key n Hlast; cbn [app groupby_from].
  - rewrite decide_False; [done|]. intros ->. by apply Hlast.
  - case_decide as Hx.
    + subst x. apply IH. by rewrite last_cons_cons in Hlast.
    + cbn [app]. f_equal. apply IH. by rewrite last_cons_cons in Hlast.
Qed.

Lemma groupby_app (a b : list Z) (x y : Z) :
  last a = Some x → head b = Some y → x ≠ y →
  groupby (a ++ b) = groupby a ++ groupby b.
Proof.
  intros Ha Hb Hxy. destruct a as [|x0 a]; [done|]. destruct b as [|y0 b]; [done|].
  injection Hb as ->. cbn [app groupby]. apply groupby_from_app. congruence.
Qed.

Lemma lengths_of_app (v : Z) (gs1 gs2 : list (Z * nat)) :
  lengths_of v (gs1 ++ gs2) = lengths_of v gs1 ++ lengths_of v gs2.
Proof. unfold lengths_of. by rewrite filter_app, fmap_app. Qed.

Lemma run_lengths_lookup_total (dt : np.int_dtype) (array : list Z) :
  array ≠ [] → Forall (λ x, 0 ≤ x < np.iinfo_max dt) array →
  ∃ seqs, run_lengths dt array = Ok seqs
    ∧ ∀ k, seqs !!! k = lengths_of k (groupby array).
Proof.
  intros Hne Hpos.
  destruct (run_lengths_ok dt array Hne Hpos) as (mx & m & _ & _ & Hle & Hrun & _ & Hlook).
  exists m. split; [done|]. intros k. rewrite lookup_total_alt, Hlook.
  case_decide as Hk; [done|]. simpl. symmetry. apply lengths_of_absent.
  eapply Forall_impl; [apply groupby_keys|]. intros g Hg Heq. simpl in *. subst k.
  rewrite Forall_forall in Hpos, Hle. specialize (Hpos _ Hg). specialize (Hle _ Hg).
  simpl in *. lia.
Qed.

(** X3. Runs do not interact across a boundary where the value changes:
    for arrays of non-negative integers below the largest value of their
    dtype, when the last entry of [a] differs from the first entry of [b],
    the runs recorded for [a ++ b] under each key are those of [a] followed
    by those of [b] (a key missing from a mapping counting as no run). *)
Theorem run_lengths_app (dt : np.int_dtype) (a b : list Z) (x y : Z) :
  Forall (λ z, 0 ≤ z < np.iinfo_max dt) a → Forall (λ z, 0 ≤ z < np.iinfo_max dt) b →
  last a = Some x → head b = Some y → x ≠ y →
  ∃ seqs_a seqs_b seqs,
    run_lengths dt a = Ok seqs_a ∧ run_lengths dt b = Ok seqs_b
    ∧ run_lengths dt (a ++ b) = Ok seqs
    ∧ ∀ k, seqs !!! k = seqs_a !!! k ++ seqs_b !!! k.
Proof.
  intros Ha Hb Hx Hy Hxy.
  assert (Hane : a ≠ []) by (by intros ->).
  assert (Hbne : b ≠ []) by (by intros ->).
  destruct (run_lengths_lookup_total dt a Hane Ha) as (ma & Hma & Hla).
  destruct (run_lengths_lookup_total dt b Hbne Hb) as (mb & Hmb & Hlb).
  destruct (run_lengths_lookup_total dt (a ++ b)) as (m & Hm & Hl).
  { by destruct a. }
  { by apply Forall_app. }
  exists ma, mb, m. split_and!; try done.
  intros k. by rewrite Hl, Hla, Hlb, (groupby_app a b x y), lengths_of_app.
Qed.

Lemma run_lengths_app_witness :
  let a := [1; 1; 0] in
  let b := [2; 0; 0] in
  Forall (λ z, 0 ≤ z < np.iinfo_max np.int64) a
  ∧ Forall (λ z, 0 ≤ z < np.iinfo_max np.int64) b
  ∧ last a = Some 0 ∧ head b = Some 2 ∧ 0 ≠ 2
  ∧ ∃ seqs_a seqs_b seqs,
      run_lengths np.int64 a = Ok seqs_a ∧ run_lengths np.int64 b = Ok seqs_b
      ∧ run_lengths np.int64 (a ++ b) = Ok seqs
      ∧ ∀ k, seqs !!! k = seqs_a !!! k ++ seqs_b !!! k.
Proof.
  assert (H1 : Forall (λ z, 0 ≤ z < np.iinfo_max np.int64) [1; 1; 0])
    by (repeat constructor; vm_compute; done).
  assert (H2 : Forall (λ z, 0 ≤ z < np.iinfo_max np.int64) [2; 0; 0])
    by (repeat constructor; vm_compute; done).
  assert (H3 : 0 ≠ 2) by lia.
  split; [exact H1|]. split; [exact H2|]. split; [reflexivity|].
  split; [reflexivity|]. split; [exact H3|].
  exact (run_lengths_app np.int64 [1; 1; 0] [2; 0; 0] 0 2 H1 H2 eq_refl eq_refl H3).
Defined.

(** *** Reversal *)

Lemma keys_alternate_snoc (gs : list (Z * nat)) (g : Z * nat) :
  keys_alternate gs → (∀ g', last gs = Some g' → g'.1 ≠ g.1) →
  keys_alternate (gs ++ [g]).
Proof.
  induction gs as [|g1 gs IH]; intros Halt Hlast; [done|].
  destruct gs as [|g2 gs].
  - simpl. split; [|done]. by apply Hlast.
  - destruct Halt as [H12 Halt]. cbn [app keys_alternate]. split; [done|].
    apply IH; [done|]. intros g' Hg'. apply Hlast. by rewrite last_cons_cons.
Qed.

Lemma keys_alternate_reverse (gs : list (Z * nat)) :
  keys_alternate gs → keys_alternate (reverse gs).
Proof.
  induction gs as [|g1 gs IH]; intros Halt; [done|].
  rewrite reverse_cons. apply keys_alternate_snoc.
  - apply IH. destruct gs; [done|]. by destruct Halt.
  - intros g' Hg'. rewrite last_reverse in Hg'.
    destruct gs as [|g2 gs]; [done|]. injection Hg' as <-.
    destruct Halt as [H12 _]. congruence.
Qed.

Lemma expand_reverse (gs : list (Z * nat)) :
  expand (reverse gs) = reverse (expand gs).
Proof.
  induction gs as [|g gs IH]; [done|].
  rewrite reverse_cons, expand_app, IH, (expand_cons g gs), reverse_app. f_equal.
  rewrite (expand_cons g []). change (expand []) with (@nil Z). rewrite app_nil_r.
  symmetry. apply reverse_replicate.
Qed.

Lemma groupby_reverse (a : list Z) : groupby (reverse a) = reverse (groupby a).
Proof.
  symmetry. apply maximal_runs_unique.
  destruct (groupby_maximal_runs a) as (He & Hpos & Halt). split_and!.
  - by rewrite expand_reverse, He.
  - by apply Forall_reverse.
  - by apply keys_alternate_reverse.
Qed.

Lemma lengths_of_reverse (v : Z) (gs : list (Z * nat)) :
  lengths_of v (reverse gs) = reverse (lengths_of v gs).
Proof. unfold lengths_of. by rewrite filter_reverse, fmap_reverse. Qed.

Lemma np_max_reverse (a : list Z) (mx : Z) :
  np.max a = Ok mx → np.max (reverse a) = Ok mx.
Proof.
  intros Hmax. assert (Hne : a ≠ []) by (by intros ->).
  destruct (np_max_spec a Hne) as (m1 & H1 & Hin1 & Hle1).
  destruct (np_max_spec (reverse a)) as (m2 & H2 & Hin2 & Hle2).
  { intros Hr. apply Hne. by rewrite <- (reverse_involutive a), Hr. }
  rewrite H2. f_equal. assert (m1 = mx) as -> by congruence.
  rewrite Forall_forall in Hle1, Hle2.
  rewrite elem_of_reverse in Hin2.
  pose proof (Hle1 _ Hin2). pose proof (Hle2 mx (proj2 (elem_of_reverse _ _) Hin1)). lia.
Qed.

(** X4. Reading the array backwards reverses every list of run lengths and
    changes nothing else. *)
Theorem run_lengths_reverse (dt : np.int_dtype) (array : list Z)
    (seqs : gmap Z (list nat)) :
  run_lengths dt array = Ok seqs →
  run_lengths dt (reverse array) = Ok (reverse <$> seqs).
Proof.
  intros Hrun.
  destruct (run_lengths_Ok dt array seqs Hrun) as (mx & Hmax & Hin & Hlook).
  destruct (run_lengths_keys dt (reverse array) mx) as (m' & Hr & _ & Hlook').
  { by apply np_max_reverse. }
  { by apply Forall_reverse. }
  rewrite Hr. f_equal. apply map_eq. intros k.
  rewrite lookup_fmap, Hlook', Hlook, groupby_reverse, lengths_of_reverse.
  by case_decide.
Qed.

Lemma run_lengths_reverse_witness :
  let seqs : gmap Z (list nat) := list_to_map [(0, [1%nat]); (1, [2; 1]%nat)] in
  run_lengths np.int64 [1; 1; 0; 1] = Ok seqs
  ∧ run_lengths np.int64 (reverse [1; 1; 0; 1]) = Ok (reverse <$> seqs).
Proof.
  assert (H1 : run_lengths np.int64 [1; 1; 0; 1]
               = Ok (list_to_map [(0, [1%nat]); (1, [2; 1]%nat)])) by (by vm_compute).
  split; [exact H1|]. exact (run_lengths_reverse np.int64 [1; 1; 0; 1] _ H1).
Defined.

(** *** A constant array *)

Lemma groupby_replicate (n : nat) (v : Z) : groupby (replicate (S n) v) = [(v, S n)].
Proof.
  cbn [replicate groupby].
  rewrite <- (app_nil_r (replicate n v)), groupby_from_replicate. done.
Qed.

(** X5. An array that repeats one non-negative value [v] below the largest
    value of its dtype gives a single run of the full length under [v] and
    an empty list under every smaller key; there are no other keys. *)
Theorem run_lengths_constant (dt : np.int_dtype) (n : nat) (v : Z) :
  (0 < n)%nat → 0 ≤ v < np.iinfo_max dt →
  ∃ seqs, run_lengths dt (replicate n v) = Ok seqs
    ∧ seqs !! v = Some [n]
    ∧ (∀ k, 0 ≤ k < v → seqs !! k = Some [])
    ∧ (∀ k, k < 0 ∨ v < k → seqs !! k = None).
Proof.
  intros Hn Hv. destruct n as [|n]; [lia|].
  destruct (run_lengths_ok dt (replicate (S n) v))
    as (mx & m & Hmax & Hin & _ & Hrun & _ & Hlook).
  { done. }
  { by apply Forall_replicate. }
  apply elem_of_replicate in Hin as [-> _].
  exists m. split; [done|]. rewrite groupby_replicate in Hlook.
  split_and!.
  - rewrite Hlook, decide_True by lia. unfold lengths_of.
    rewrite filter_cons, decide_True by done. done.
  - intros k Hk. rewrite Hlook, decide_True by lia. unfold lengths_of.
    rewrite filter_cons, decide_False by (simpl; lia). done.
  - intros k Hk. rewrite Hlook, decide_False by lia. done.
Qed.

Lemma run_lengths_constant_witness :
  (0 < 3)%nat ∧ 0 ≤ 2 < np.iinfo_max np.uint8
  ∧ ∃ seqs, run_lengths np.uint8 (replicate 3 2) = Ok seqs
      ∧ seqs !! 2 = Some [3%nat]
      ∧ (∀ k, 0 ≤ k < 2 → seqs !! k = Some [])
      ∧ (∀ k, k < 0 ∨ 2 < k → seqs !! k = None).
Proof.
  assert (H1 : (0 < 3)%nat) by lia.
  assert (H2 : 0 ≤ 2 < np.iinfo_max np.uint8) by (vm_compute; done).
  split; [exact H1|]. split; [exact H2|].
  exact (run_lengths_constant np.uint8 3 2 H1 H2).
Defined.

(** ** [int_over_union] *)

Lemma for_each_ext {A S} (body1 body2 : S → A → result S) (l : list A) :
  (∀ s x, body1 s x = body2 s x) → ∀ s, for_each body1 s l = for_each body2 s l.
Proof.
  intros Hb. induction l as [|x l IH]; intros s; cbn [for_each]; [done|].
  rewrite Hb. destruct (body2 s x); cbn [mbind result_bind]; auto.
Qed.

Lemma sorted_same_elements (l1 l2 : list Z) :
  StronglySorted Z.lt l1 → StronglySorted Z.lt l2 →
  (∀ x, x ∈ l1 ↔ x ∈ l2) → l1 = l2.
Proof.
  intros H1. revert l2. induction H1 as [|x l1 Hs1 IH Hx]; intros l2 H2 Hel.
  - destruct l2 as [|y l2]; [done|]. exfalso.
    apply (not_elem_of_nil y), Hel. by left.
  - destruct H2 as [|y l2 Hs2 Hy].
    { exfalso. apply (not_elem_of_nil x), Hel. by left. }
    rewrite Forall_forall in Hx, Hy.
    assert (x = y) as ->.
    { assert (Hxin : x ∈ y :: l2) by (apply Hel; by left).
      assert (Hyin : y ∈ x :: l1) by (apply Hel; by left).
      apply elem_of_cons in Hxin as [?|Hxin]; [done|].
      apply elem_of_cons in Hyin as [?|Hyin]; [done|].
      specialize (Hx _ Hyin). specialize (Hy _ Hxin). lia. }
    f_equal. apply IH; [done|]. intros z. split; intros Hz.
    + assert (Hz' : z ∈ y :: l2) by (apply Hel; by right).
      apply elem_of_cons in Hz' as [->|?]; [|done].
      specialize (Hx _ Hz). lia.
    + assert (Hz' : z ∈ y :: l1) by (apply Hel; by right).
      apply elem_of_cons in Hz' as [->|?]; [|done].
      specialize (Hy _ Hz). lia.
Qed.

Lemma np_unique_same_elements (a b : list Z) :
  (∀ x, x ∈ a ↔ x ∈ b) → np.unique a = np.unique b.
Proof.
  intros Hel. apply sorted_same_elements; try apply np_unique_sorted.
  intros x. by rewrite !elem_of_np_unique.
Qed.

Lemma np_broadcast_comm {A C} (f : A → A → C) (a b : list A) :
  (∀ x y, f x y = f y x) → np.broadcast f a b = np.broadcast f b a.
Proof.
  intros Hf. unfold np.broadcast.
  destruct (decide (length a = length b)) as [Hl|Hl].
  - rewrite decide_True by done. f_equal. rewrite <- zip_with_flip.
    apply zip_with_ext; [|done..]. intros x y. apply Hf.
  - rewrite decide_False by done.
    destruct a as [|x [|x' a]], b as [|y [|y' b]]; try done;
      f_equal; apply list_fmap_ext; intros; apply Hf.
Qed.

(** X6. [int_over_union] is symmetric in its two arrays, whatever their
    lengths: it returns the same mapping, or raises the same exception. *)
Theorem int_over_union_comm (array1 array2 : list Z) :
  int_over_union array1 array2 = int_over_union array2 array1.
Proof.
  unfold int_over_union.
  rewrite (np_unique_same_elements (np.unique array1 ++ np.unique array2)
             (np.unique array2 ++ np.unique array1)).
  2:{ intros x. rewrite !elem_of_app. tauto. }
  apply for_each_ext. intros iou val.
  rewrite (np_broadcast_comm andb (np.equal array1 val)) by (by intros [] []).
  rewrite (np_broadcast_comm orb (np.equal array1 val)) by (by intros [] []).
  done.
Qed.

Lemma int_over_union_lookup (array1 array2 : list Z) :
  length array1 = length array2 →
  ∃ iou, int_over_union array1 array2 = Ok iou
    ∧ ∀ v, iou !! v
           = if decide (v ∈ array1 ∨ v ∈ array2)
             then Some (Real (ratio (count_both v array1 array2)
                                    (count_either v array1 array2)))
             else None.
Proof.
  intros Hlen. unfold int_over_union.
  set (vals := np.unique (np.unique array1 ++ np.unique array2)).
  set (init := list_to_map ((λ val, (val, NaN)) <$> vals) : gmap Z float64).
  assert (Hvals : ∀ v, v ∈ vals ↔ v ∈ array1 ∨ v ∈ array2).
  { intros v. unfold vals.
    by rewrite elem_of_np_unique, elem_of_app, !elem_of_np_unique. }
  rewrite (for_each_total _
    (λ m v, <[v := true_divide (Z.of_nat (count_both v array1 array2))
                               (Z.of_nat (count_either v array1 array2))]> m)).
  2:{ intros s v.
      rewrite !np_broadcast_same_length by (by rewrite !np_equal_length).
      simpl. by rewrite np_sum_both, np_sum_either. }
  eexists. split; [done|]. intros v. rewrite foldl_insert_lookup.
  destruct (decide (v ∈ array1 ∨ v ∈ array2)) as [Hv|Hv].
  - rewrite decide_True by (by apply Hvals). f_equal.
    pose proof (count_either_pos v array1 array2 Hlen Hv) as Hpos.
    pose proof (count_both_le_either v array1 array2) as Hle.
    by destruct (true_divide_counts _ _ Hpos Hle) as (-> & _).
  - rewrite decide_False by (by rewrite Hvals).
    unfold init. apply not_elem_of_list_to_map_1.
    rewrite <- list_fmap_compose. intros (w & -> & Hw)%list_elem_of_fmap.
    apply Hv, Hvals, Hw.
Qed.

Lemma ratio_Qeq (n d : nat) (z : Z) :
  (0 < d)%nat → (ratio n d == inject_Z z)%Q ↔ Z.of_nat n = z * Z.of_nat d.
Proof.
  intros Hd. unfold ratio, Qdiv, Qinv, Qeq. simpl.
  destruct (Z.of_nat d) as [|p|p] eqn:E; try lia. simpl. lia.
Qed.

Lemma filter_length_eq {A} (P Q : A → Prop) `{!∀ x, Decision (P x)}
    `{!∀ x, Decision (Q x)} (l : list A) :
  (∀ x, P x → Q x) →
  length (filter P l) = length (filter Q l) ↔ Forall (λ x, Q x → P x) l.
Proof.
  intros HPQ. induction l as [|x l IH].
  - split; [constructor|done].
  - pose proof (filter_length_mono P Q l HPQ) as Hle.
    rewrite !filter_cons, Forall_cons. specialize (HPQ x).
    destruct (decide (P x)) as [HP|HP], (decide (Q x)) as [HQ|HQ]; simpl.
    + rewrite <- IH. split; [intros Heq; split; [done|lia]|intros [_ Heq]; lia].
    + tauto.
    + split; [lia|tauto].
    + rewrite <- IH. tauto.
Qed.

Lemma count_both_eq_either (v : Z) (a b : list Z) :
  count_both v a b = count_either v a b
  ↔ Forall (λ xy, xy.1 = v ↔ xy.2 = v) (zip a b).
Proof.
  unfold count_both, count_either. rewrite filter_length_eq by tauto.
  split; intros H; eapply Forall_impl; try exact H; intros xy; simpl; tauto.
Qed.

Lemma count_both_zero (v : Z) (a b : list Z) :
  count_both v a b = 0%nat
  ↔ Forall (λ xy, ¬ (xy.1 = v ∧ xy.2 = v)) (zip a b).
Proof.
  unfold count_both. induction (zip a b) as [|xy l IH].
  - split; [constructor|done].
  - rewrite filter_cons, Forall_cons. case_decide; simpl; rewrite <- ?IH.
    + split; [lia|tauto].
    + tauto.
Qed.

(** X7. For equal-length arrays, the IoU of a value that occurs is 1 exactly
    when the two arrays hold that value at the same positions, and 0
    exactly when there is no position where both hold it. *)
Theorem int_over_union_extremes (array1 array2 : list Z) (v : Z) :
  length array1 = length array2 → v ∈ array1 ∨ v ∈ array2 →
  ∃ iou q, int_over_union array1 array2 = Ok iou ∧ iou !! v = Some (Real q)
    ∧ ((q == 1)%Q ↔ Forall (λ xy, xy.1 = v ↔ xy.2 = v) (zip array1 array2))
    ∧ ((q == 0)%Q ↔ Forall (λ xy, ¬ (xy.1 = v ∧ xy.2 = v)) (zip array1 array2)).
Proof.
  intros Hlen Hv. destruct (int_over_union_lookup array1 array2 Hlen) as (iou & Hiou & Hl).
  exists iou, (ratio (count_both v array1 array2) (count_either v array1 array2)).
  pose proof (count_either_pos v array1 array2 Hlen Hv) as Hpos.
  split; [done|]. split; [by rewrite Hl, decide_True|]. split.
  - rewrite <- count_both_eq_either. change 1%Q with (inject_Z 1).
    rewrite ratio_Qeq by done. lia.
  - rewrite <- count_both_zero. change 0%Q with (inject_Z 0).
    rewrite ratio_Qeq by done. lia.
Qed.

Lemma int_over_union_extremes_witness :
  let a := [1; 1; 0] in
  let b := [1; 0; 0] in
  length a = length b ∧ (1 ∈ a ∨ 1 ∈ b)
  ∧ ∃ iou q, int_over_union a b = Ok iou ∧ iou !! 1 = Some (Real q)
      ∧ ((q == 1)%Q ↔ Forall (λ xy, xy.1 = 1 ↔ xy.2 = 1) (zip a b))
      ∧ ((q == 0)%Q ↔ Forall (λ xy, ¬ (xy.1 = 1 ∧ xy.2 = 1)) (zip a b)).
Proof.
  assert (H1 : 1 ∈ [1; 1; 0] ∨ 1 ∈ [1; 0; 0]) by (left; by left).
  split; [reflexivity|]. split; [exact H1|].
  exact (int_over_union_extremes [1; 1; 0] [1; 0; 0] 1 eq_refl H1).
Defined.

Lemma zip_diag_filter_both (v : Z) (a : list Z) :
  count_both v a a = length (filter (λ x, x = v) a)
  ∧ count_either v a a = length (filter (λ x, x = v) a).
Proof.
  unfold count_both, count_either. rewrite zip_diag.
  rewrite !filter_fmap_comm, !length_fmap. simpl. split; f_equal.
  - apply filter_equiv. intros x. tauto.
  - apply filter_equiv. intros x. tauto.
Qed.

(** X8. Comparing an array with itself gives IoU 1 for every value that
    occurs, and no other key. *)
Theorem int_over_union_same (array : list Z) :
  ∃ iou, int_over_union array array = Ok iou
    ∧ (∀ v, v ∈ array → ∃ q, iou !! v = Some (Real q) ∧ (q == 1)%Q)
    ∧ (∀ v, v ∉ array → iou !! v = None).
Proof.
  destruct (int_over_union_lookup array array eq_refl) as (iou & Hiou & Hl).
  exists iou. split; [done|]. split.
  - intros v Hv. eexists. split; [by rewrite Hl, decide_True by (by left)|].
    destruct (zip_diag_filter_both v array) as [-> ->].
    change 1%Q with (inject_Z 1). apply ratio_Qeq; [|lia].
    apply list_elem_of_split in Hv as (l1 & l2 & ->).
    rewrite filter_app, filter_cons, decide_True by done.
    rewrite length_app. simpl. lia.
  - intros v Hv. rewrite Hl, decide_False; [done|]. tauto.
Qed.

Lemma np_broadcast_mismatch {A B C} (f : A → B → C) (a : list A) (b : list B) :
  length a ≠ length b → length a ≠ 1%nat → length b ≠ 1%nat →
  np.broadcast f a b = Raise ValueError.
Proof.
  intros Hl Ha Hb. unfold np.broadcast. rewrite decide_False by done.
  destruct a as [|x [|x' a]], b as [|y [|y' b]]; done.
Qed.

(** X9. Arrays of different lengths, neither of length one, cannot be
    compared: the call raises a [ValueError] and returns no mapping. *)
Theorem int_over_union_mismatch (array1 array2 : list Z) :
  length array1 ≠ length array2 →
  length array1 ≠ 1%nat → length array2 ≠ 1%nat →
  int_over_union array1 array2 = Raise ValueError.
Proof.
  intros Hl H1 H2. unfold int_over_union.
  destruct (np.unique (np.unique array1 ++ np.unique array2)) as [|val vals] eqn:Hvals.
  - exfalso. apply Hl.
    assert (Hnone : ∀ x, ¬ (x ∈ array1 ∨ x ∈ array2)).
    { intros x Hx. apply (not_elem_of_nil x). rewrite <- Hvals.
      by rewrite elem_of_np_unique, elem_of_app, !elem_of_np_unique. }
    destruct array1 as [|x ?]; [|destruct (Hnone x); left; by left].
    destruct array2 as [|y ?]; [done|destruct (Hnone y); right; by left].
  - cbn [for_each].
    rewrite (np_broadcast_mismatch andb) by (by rewrite ?np_equal_length).
    done.
Qed.

Lemma int_over_union_mismatch_witness :
  length [1; 2; 2] ≠ length [1; 2]
  ∧ length [1; 2; 2] ≠ 1%nat ∧ length [1; 2] ≠ 1%nat
  ∧ int_over_union [1; 2; 2] [1; 2] = Raise ValueError.
Proof.
  assert (H1 : length [1; 2; 2] ≠ length [1; 2]) by (simpl; lia).
  assert (H2 : length [1; 2; 2] ≠ 1%nat) by (simpl; lia).
  assert (H3 : length [1; 2] ≠ 1%nat) by (simpl; lia).
  split; [exact H1|]. split; [exact H2|]. split; [exact H3|].
  exact (int_over_union_mismatch [1; 2; 2] [1; 2] H1 H2 H3).
Defined.

(** ** [get_precision_recall] *)

Lemma get_precision_recall_lookup (t p : list Z) (n : option Z) (res : prf) (i : nat) :
  length t = length p → get_precision_recall t p 0 n = Ok res →
  (i < class_count t n)%nat →
  precision res !! i = Some (class_precision t p (Z.of_nat (S i)))
  ∧ recall res !! i = Some (class_recall t p (Z.of_nat (S i)))
  ∧ f1 res !! i = Some (class_f1 t p (Z.of_nat (S i))).
Proof.
  intros Hlen Hres Hi.
  destruct (get_precision_recall_Ok t p n res Hlen Hres) as [_ ->].
  cbn [precision recall f1].
  by rewrite !list_lookup_fmap, class_labels_lookup.
Qed.

(** X10. The three scores of a class are undefined together, exactly when
    the class has no true positive; this is the case for every class
    without ground-truth support and every class that is never predicted
    at an observed position. *)
Theorem scores_undefined_together (true_classes pred_classes : list Z)
    (n_classes : option Z) (res : prf) (i : nat) :
  length true_classes = length pred_classes →
  get_precision_recall true_classes pred_classes 0 n_classes = Ok res →
  (i < class_count true_classes n_classes)%nat →
  let c := Z.of_nat (S i) in
  let tp := true_positives true_classes pred_classes c in
  (precision res !! i = Some NaN ↔ tp = 0%nat)
  ∧ (recall res !! i = Some NaN ↔ tp = 0%nat)
  ∧ (f1 res !! i = Some NaN ↔ tp = 0%nat)
  ∧ (support true_classes c = 0%nat → tp = 0%nat)
  ∧ (predicted true_classes pred_classes c = 0%nat → tp = 0%nat).
Proof.
  intros Hlen Hres Hi c tp.
  destruct (get_precision_recall_lookup _ _ _ _ _ Hlen Hres Hi) as (-> & -> & ->).
  fold c. unfold class_precision, class_recall, class_f1. fold tp.
  pose proof (true_positives_le_support true_classes pred_classes c).
  pose proof (true_positives_le_predicted true_classes pred_classes c ltac:(lia)).
  fold tp in H, H0.
  split_and!; try lia; case_decide; split; try done; intros [=].
Qed.

Lemma scores_undefined_together_witness :
  let t := [1; 2; 2; 0] in
  let p := [2; 2; 2; 1] in
  let res := {| precision := [NaN; Real (2 # 3)]; recall := [NaN; Real (2 # 2)];
                f1 := [NaN; Real (48 # 60)] |} in
  length t = length p
  ∧ get_precision_recall t p 0 None = Ok res
  ∧ (0 < class_count t None)%nat
  ∧ (precision res !! 0%nat = Some NaN ↔ true_positives t p 1 = 0%nat)
  ∧ (recall res !! 0%nat = Some NaN ↔ true_positives t p 1 = 0%nat)
  ∧ (f1 res !! 0%nat = Some NaN ↔ true_positives t p 1 = 0%nat)
  ∧ (support t 1 = 0%nat → true_positives t p 1 = 0%nat)
  ∧ (predicted t p 1 = 0%nat → true_positives t p 1 = 0%nat).
Proof.
  assert (H1 : get_precision_recall [1; 2; 2; 0] [2; 2; 2; 1] 0 None
               = Ok {| precision := [NaN; Real (2 # 3)]; recall := [NaN; Real (2 # 2)];
                       f1 := [NaN; Real (48 # 60)] |}) by (by vm_compute).
  assert (H2 : (0 < class_count [1; 2; 2; 0]%Z None)%nat) by (vm_compute; lia).
  split; [reflexivity|]. split; [exact H1|]. split; [exact H2|].
  exact (scores_undefined_together [1; 2; 2; 0] [2; 2; 2; 1] None _ 0 eq_refl H1 H2).
Defined.

Lemma ratio_same (n : nat) : (0 < n)%nat → (ratio n n == 1)%Q.
Proof. intros Hn. change 1%Q with (inject_Z 1). apply ratio_Qeq; lia. Qed.

(** X11. A class that is predicted exactly where it is true (at least once)
    has precision, recall and f1 equal to 1. *)
Theorem perfect_class (true_classes pred_classes : list Z)
    (n_classes : option Z) (res : prf) (i : nat) :
  length true_classes = length pred_classes →
  get_precision_recall true_classes pred_classes 0 n_classes = Ok res →
  (i < class_count true_classes n_classes)%nat →
  let c := Z.of_nat (S i) in
  (0 < true_positives true_classes pred_classes c)%nat →
  true_positives true_classes pred_classes c = support true_classes c →
  true_positives true_classes pred_classes c = predicted true_classes pred_classes c →
  ∃ qp qr qf,
    precision res !! i = Some (Real qp) ∧ recall res !! i = Some (Real qr)
    ∧ f1 res !! i = Some (Real qf)
    ∧ (qp == 1)%Q ∧ (qr == 1)%Q ∧ (qf == 1)%Q.
Proof.
  intros Hlen Hres Hi c Htp Hsupp Hpred.
  destruct (get_precision_recall_lookup _ _ _ _ _ Hlen Hres Hi) as (-> & -> & ->).
  fold c. unfold class_precision, class_recall, class_f1.
  rewrite !decide_False by lia. rewrite <- Hsupp, <- Hpred.
  eexists _, _, _. split_and!; try done; try (by apply ratio_same).
  cbv zeta. rewrite (ratio_same _ Htp). reflexivity.
Qed.

Lemma perfect_class_witness :
  let t := [1; 2; 2; 0] in
  let p := [1; 2; 2; 1] in
  let res := {| precision := [Real 1; Real (2 # 2)]; recall := [Real 1; Real (2 # 2)];
                f1 := [Real (2 # 2); Real (32 # 32)] |} in
  length t = length p
  ∧ get_precision_recall t p 0 None = Ok res
  ∧ (1 < class_count t None)%nat
  ∧ (0 < true_positives t p 2%Z)%nat
  ∧ true_positives t p 2 = support t 2
  ∧ true_positives t p 2 = predicted t p 2
  ∧ ∃ qp qr qf,
      precision res !! 1%nat = Some (Real qp) ∧ recall res !! 1%nat = Some (Real qr)
      ∧ f1 res !! 1%nat = Some (Real qf)
      ∧ (qp == 1)%Q ∧ (qr == 1)%Q ∧ (qf == 1)%Q.
Proof.
  assert (H1 : get_precision_recall [1; 2; 2; 0] [1; 2; 2; 1] 0 None
               = Ok {| precision := [Real 1; Real (2 # 2)];
                       recall := [Real 1; Real (2 # 2)];
                       f1 := [Real (2 # 2); Real (32 # 32)] |}) by (by vm_compute).
  assert (H2 : (1 < class_count [1; 2; 2; 0]%Z None)%nat) by (vm_compute; lia).
  assert (H3 : (0 < true_positives [1; 2; 2; 0]%Z [1; 2; 2; 1]%Z 2%Z)%nat) by (vm_compute; lia).
  split; [reflexivity|]. split; [exact H1|]. split; [exact H2|]. split; [exact H3|].
  split; [reflexivity|]. split; [reflexivity|].
  exact (perfect_class [1; 2; 2; 0] [1; 2; 2; 1] None _ 1 eq_refl H1 H2 H3 eq_refl eq_refl).
Defined.

Lemma get_precision_recall_counts (t p t' p' : list Z) (n : option Z) :
  length t = length p → length t' = length p' →
  class_labels t n = class_labels t' n →
  (∀ c, c ≠ 0 →
     true_positives t p c = true_positives t' p' c
     ∧ predicted t p c = predicted t' p' c
     ∧ support t c = support t' c) →
  get_precision_recall t p 0 n = get_precision_recall t' p' 0 n.
Proof.
  intros Hlen Hlen' Hlabels Hcounts.
  assert (Hsame : ∀ a b : list Z, (∀ c, c ≠ 0 → support a c = support b c) →
                    Forall (λ x, x = 0) a → Forall (λ x, x = 0) b).
  { intros a b Hsupp Ha. apply Forall_forall. intros x Hx.
    destruct (decide (x = 0)) as [|Hne]; [done|]. exfalso.
    specialize (Hsupp x Hne). unfold support in Hsupp.
    apply list_elem_of_split in Hx as (l1 & l2 & ->).
    rewrite filter_app, filter_cons, decide_True, length_app in Hsupp by done.
    simpl in Hsupp.
    assert (Hnil : filter (λ t, t = x) a = []).
    { apply filter_none. eapply Forall_impl; [exact Ha|]. intros y Hy. simpl in *.
      congruence. }
    rewrite Hnil in Hsupp. simpl in Hsupp. lia. }
  rewrite !get_precision_recall_observed, !check_targets_observed by done.
  destruct (decide (Forall (λ x, x = 0) t)) as [Ht|Ht],
           (decide (Forall (λ x, x = 0) t')) as [Ht'|Ht']; try done.
  { destruct Ht'. apply (Hsame t t'); [|done]. intros c Hc. by apply Hcounts. }
  { destruct Ht. apply (Hsame t' t); [|done]. intros c Hc. symmetry. by apply Hcounts. }
  cbn [mbind result_bind]. rewrite <- Hlabels.
  do 2 f_equal; apply list_fmap_ext;
    intros i c Hc%list_elem_of_lookup_2%class_labels_nonzero;
    destruct (Hcounts c Hc) as (Htp & Hpr & Hsu);
    unfold class_precision, class_recall, class_f1;
    by rewrite Htp, ?Hpr, ?Hsu.
Qed.

(** X13. Positions whose true label is the background, and whatever is
    predicted there, have no influence: dropping them from both arrays
    before the call gives the same result. *)
Theorem background_ignored (true_classes pred_classes : list Z)
    (n_classes : option Z) :
  length true_classes = length pred_classes →
  get_precision_recall true_classes pred_classes 0 n_classes
  = get_precision_recall (observed 0 true_classes pred_classes).*1
                         (observed 0 true_classes pred_classes).*2 0 n_classes.
Proof.
  intros Hlen. set (obs := observed 0 true_classes pred_classes).
  assert (Hobs1 : obs.*1 = filter (λ x, x ≠ 0) true_classes)
    by (by apply observed_true).
  apply get_precision_recall_counts.
  - done.
  - by rewrite !length_fmap.
  - unfold class_labels. destruct n_classes; [done|].
    assert (filter (λ x, x ≠ 0) obs.*1 = filter (λ x, x ≠ 0) true_classes) as ->; [|done].
    rewrite Hobs1, list_filter_filter. apply filter_equiv. tauto.
  - intros c Hc. split_and!.
    + unfold true_positives. rewrite zip_fst_snd. unfold obs, observed.
      rewrite list_filter_filter. f_equal. apply filter_equiv.
      intros [x y]. simpl. split; [|tauto]. intros [-> ->]. done.
    + unfold predicted. rewrite zip_fst_snd. unfold obs, observed.
      rewrite list_filter_filter. f_equal. apply filter_equiv.
      intros [x y]. simpl. tauto.
    + unfold support. rewrite Hobs1, list_filter_filter. f_equal.
      apply filter_equiv. intros x. split; [|tauto]. intros ->. done.
Qed.

Lemma background_ignored_witness :
  let t := [1; 0; 2; 0; 2] in
  let p := [1; 2; 1; 1; 2] in
  length t = length p
  ∧ get_precision_recall t p 0 None
    = get_precision_recall (observed 0 t p).*1 (observed 0 t p).*2 0 None.
Proof.
  split; [reflexivity|].
  exact (background_ignored [1; 0; 2; 0; 2] [1; 2; 1; 1; 2] None eq_refl).
Defined.

Lemma np_unique_Permutation (a b : list Z) : a ≡ₚ b → np.unique a = np.unique b.
Proof.
  intros Hab. apply np_unique_same_elements. intros x. by rewrite Hab.
Qed.

(** X14. The order of the time points does not matter: rearranging the
    positions of the two arrays in the same way leaves the result
    unchanged. *)
Theorem order_irrelevant (true_classes pred_classes true_classes' pred_classes' : list Z)
    (n_classes : option Z) :
  length true_classes = length pred_classes →
  length true_classes' = length pred_classes' →
  zip true_classes pred_classes ≡ₚ zip true_classes' pred_classes' →
  get_precision_recall true_classes pred_classes 0 n_classes
  = get_precision_recall true_classes' pred_classes' 0 n_classes.
Proof.
  intros Hlen Hlen' Hperm.
  assert (Ht : true_classes ≡ₚ true_classes').
  { rewrite <- (fst_zip true_classes pred_classes) by lia.
    rewrite <- (fst_zip true_classes' pred_classes') by lia. by rewrite Hperm. }
  apply get_precision_recall_counts; try done.
  - unfold class_labels. destruct n_classes; [done|].
    rewrite (np_unique_Permutation (filter (λ x, x ≠ 0) true_classes)
               (filter (λ x, x ≠ 0) true_classes')); [done|]. by rewrite Ht.
  - intros c Hc. unfold true_positives, predicted, support.
    by rewrite Hperm, Ht.
Qed.

Lemma order_irrelevant_witness :
  let t := [1; 0; 2] in
  let p := [1; 2; 1] in
  let t' := [2; 1; 0] in
  let p' := [1; 1; 2] in
  length t = length p ∧ length t' = length p'
  ∧ zip t p ≡ₚ zip t' p'
  ∧ get_precision_recall t p 0 None = get_precision_recall t' p' 0 None.
Proof.
  assert (H : zip [1; 0; 2] [1; 2; 1] ≡ₚ zip [2; 1; 0] [1; 1; 2]).
  { symmetry. apply (Permutation_cons_append [(1, 1); (0, 2)] (2, 1)). }
  split; [reflexivity|]. split; [reflexivity|]. split; [exact H|].
  exact (order_irrelevant [1; 0; 2] [1; 2; 1] [2; 1; 0] [1; 1; 2] None eq_refl eq_refl H).
Defined.

(** ** [load_metrics_csv_as_df] *)

(** X15. There must be something to concatenate: a table without rows makes
    the call raise a [ValueError], and with an empty list of metrics the
    call raises whatever the table holds. *)
Theorem load_nothing_to_concat (read_csv : string → result DataFrame)
    (metric_file : string) (metrics_list : list string)
    (expt_ids : option (list string)) (test : bool) (metrics : DataFrame) :
  read_csv metric_file = Ok metrics →
  (df_rows metrics = [] →
   load_metrics_csv_as_df read_csv metric_file metrics_list expt_ids test
   = Raise ValueError)
  ∧ (metrics_list = [] →
     raises (load_metrics_csv_as_df read_csv metric_file metrics_list expt_ids test)).
Proof.
  intros Hdf. split.
  - intros Hrows. unfold load_metrics_csv_as_df. rewrite Hdf.
    cbn [mbind result_bind]. unfold iterrows. by rewrite Hrows.
  - intros ->.
    destruct (load_metrics_csv_as_df read_csv metric_file [] expt_ids test)
      as [out|e] eqn:Hload; [|by exists e].
    apply load_Ok in Hload as (df & _ & _ & Hne & Hrecs).
    apply Forall2_length in Hrecs. rewrite wide_entries_length in Hrecs.
    simpl in Hrecs. rewrite Nat.mul_0_r in Hrecs. by destruct out.
Qed.

Lemma load_nothing_to_concat_witness :
  let empty_log := {| df_columns := ["epoch"; "dataset"]; df_rows := [] |} in
  let read_csv := λ _ : string, Ok empty_log in
  read_csv "metrics.csv" = Ok empty_log
  ∧ df_rows empty_log = []
  ∧ load_metrics_csv_as_df read_csv "metrics.csv" [] None false = Raise ValueError
  ∧ raises (load_metrics_csv_as_df read_csv "metrics.csv" [] None false).
Proof.
  pose proof (load_nothing_to_concat
                (λ _, Ok {| df_columns := ["epoch"; "dataset"]; df_rows := [] |})
                "metrics.csv" [] None false _ eq_refl) as [H1 H2].
  split; [reflexivity|]. split; [reflexivity|].
  split; [exact (H1 eq_refl)|exact (H2 eq_refl)].
Defined.

Lemma list_getitem_out_of_range {A} (l : list A) (i : Z) :
  Z.of_nat (length l) ≤ i ∨ i < - Z.of_nat (length l) →
  list_getitem l i = Raise IndexError.
Proof.
  intros Hi. unfold list_getitem.
  destruct (decide (i < 0)) as [Hneg|Hneg].
  - rewrite decide_True by lia. done.
  - rewrite decide_False by lia.
    rewrite (proj2 (lookup_ge_None l (Z.to_nat i))) by lia. done.
Qed.

Lemma list_getitem_Ok {A} (l : list A) (i : Z) (x : A) :
  list_getitem l i = Ok x → x ∈ l.
Proof.
  unfold list_getitem. case_decide; [done|].
  destruct (l !! _) eqn:Hl; [|done]. intros [= <-]. by eapply list_elem_of_lookup_2.
Qed.

(** X16. With experiment ids given, a row whose dataset index (other than
    -1) is not a position of the list makes the call raise: no row is
    emitted under a made-up name. *)
Theorem load_unknown_dataset (read_csv : string → result DataFrame)
    (metric_file : string) (metrics_list : list string) (ids : list string)
    (test : bool) (metrics : DataFrame) (row : Series) (d : float64) (i : Z) :
  read_csv metric_file = Ok metrics →
  row ∈ iterrows metrics →
  loc row "dataset" = Ok d → fl.eqb d (Real (-1)) = false → fl.to_int d = Ok i →
  Z.of_nat (length ids) ≤ i ∨ i < - Z.of_nat (length ids) →
  raises (load_metrics_csv_as_df read_csv metric_file metrics_list (Some ids) test).
Proof.
  intros Hdf Hrow Hd Hall Hint Hrange.
  destruct (load_metrics_csv_as_df read_csv metric_file metrics_list (Some ids) test)
    as [out|e] eqn:Hload; [|by exists e].
  exfalso. apply load_Ok in Hload as (df & Hdf' & Hread & _ & _).
  assert (df = metrics) as -> by congruence.
  rewrite Forall_forall in Hread. destruct (Hread row Hrow) as (ds & e & Hds & _).
  unfold dataset_label in Hds. rewrite Hd in Hds. cbn [mbind result_bind] in Hds.
  rewrite Hall, Hint in Hds. cbn [mbind result_bind] in Hds.
  by rewrite list_getitem_out_of_range in Hds.
Qed.

Lemma load_unknown_dataset_witness :
  let read_csv := λ _ : string, Ok two_epoch_log in
  let row := {| s_index := ["epoch"; "dataset"; "test_loss"];
                s_values := [Real 1; Real 0; Real (1 # 4)] |} in
  let ids : list string := [] in
  read_csv "metrics.csv" = Ok two_epoch_log
  ∧ row ∈ iterrows two_epoch_log
  ∧ loc row "dataset" = Ok (Real 0) ∧ fl.eqb (Real 0) (Real (-1)) = false
  ∧ fl.to_int (Real 0) = Ok 0
  ∧ (Z.of_nat (length ids) ≤ 0 ∨ 0 < - Z.of_nat (length ids))
  ∧ raises (load_metrics_csv_as_df read_csv "metrics.csv" ["loss"] (Some ids) true).
Proof.
  assert (H1 : {| s_index := ["epoch"; "dataset"; "test_loss"];
                  s_values := [Real 1; Real 0; Real (1 # 4)] |}
               ∈ iterrows two_epoch_log) by (right; by left).
  assert (H2 : Z.of_nat (length (@nil string)) ≤ 0
               ∨ 0 < - Z.of_nat (length (@nil string))) by (left; simpl; lia).
  split; [reflexivity|]. split; [exact H1|]. split; [reflexivity|].
  split; [reflexivity|]. split; [reflexivity|]. split; [exact H2|].
  exact (load_unknown_dataset (λ _, Ok two_epoch_log) "metrics.csv" ["loss"] [] true
           two_epoch_log _ (Real 0) 0 eq_refl H1 eq_refl eq_refl eq_refl H2).
Defined.

Lemma dataset_label_Ok (expt_ids : option (list string)) (row : Series) (ds : pyval) :
  dataset_label expt_ids row = Ok ds →
  ds = PyStr "all"
  ∨ match expt_ids with
    | Some ids => ∃ name, name ∈ ids ∧ ds = PyStr name
    | None => ∃ d, loc row "dataset" = Ok d ∧ fl.eqb d (Real (-1)) = false
                   ∧ ds = PyFloat d
    end.
Proof.
  unfold dataset_label. intros (d & Hd & H)%bind_Ok.
  destruct (fl.eqb d (Real (-1))) eqn:Heq; [left; congruence|]. right.
  destruct expt_ids as [ids|].
  - apply bind_Ok in H as (i & Hi & H). apply bind_Ok in H as (name & Hname & [= <-]).
    exists name. split; [|done]. by eapply list_getitem_Ok.
  - rewrite Hd in H. injection H as <-. eauto.
Qed.

(** X17. Every dataset label of the returned table is the string "all", or
    one of the experiment ids when they are given, or, when they are not,
    the raw dataset value of a source row (never -1). *)
Theorem load_dataset_labels (read_csv : string → result DataFrame)
    (metric_file : string) (metrics_list : list string)
    (expt_ids : option (list string)) (test : bool) (out : list long_row) :
  load_metrics_csv_as_df read_csv metric_file metrics_list expt_ids test = Ok out →
  ∃ metrics, read_csv metric_file = Ok metrics ∧
    Forall (λ r,
      dataset r = PyStr "all"
      ∨ match expt_ids with
        | Some ids => ∃ name, name ∈ ids ∧ dataset r = PyStr name
        | None => ∃ row d, row ∈ iterrows metrics ∧ loc row "dataset" = Ok d
                           ∧ fl.eqb d (Real (-1)) = false ∧ dataset r = PyFloat d
        end) out.
Proof.
  intros (df & Hdf & _ & _ & Hrecs)%load_Ok. exists df. split; [done|].
  apply Forall_forall. intros r Hr.
  apply list_elem_of_lookup in Hr as (i & Hi).
  destruct (Forall2_lookup_l _ _ _ _ _ Hrecs Hi) as (c & Hc & Hrc).
  apply record_of_made_from in Hrc as (Hds & _).
  assert (Hrow : src_row c ∈ iterrows df).
  { apply list_elem_of_lookup_2 in Hc. unfold wide_entries in Hc.
    apply list_elem_of_bind in Hc as (row & Hc & Hrow). unfold row_entries in Hc.
    destruct test; rewrite ?elem_of_app, !list_elem_of_fmap in Hc;
      [destruct Hc as (m & -> & _)|destruct Hc as [(m & -> & _)|(m & -> & _)]]; done. }
  apply dataset_label_Ok in Hds as [Hall|Hds]; [by left|right].
  destruct expt_ids; [done|]. destruct Hds as (d & Hd & Hne & Hds). eauto 10.
Qed.

Lemma load_dataset_labels_witness :
  let read_csv := λ _ : string, Ok two_epoch_log in
  let out :=
    [ {| dataset := PyStr "fly"; epoch := Real 0; dtype := "test";
         loss := "loss"; val := Real (1 # 2) |};
      {| dataset := PyStr "fly"; epoch := Real 1; dtype := "test";
         loss := "loss"; val := Real (1 # 4) |} ] in
  load_metrics_csv_as_df read_csv "metrics.csv" ["loss"] (Some ["fly"]) true = Ok out
  ∧ ∃ metrics, read_csv "metrics.csv" = Ok metrics ∧
      Forall (λ r, dataset r = PyStr "all"
                   ∨ ∃ name, name ∈ ["fly"] ∧ dataset r = PyStr name) out.
Proof.
  split; [reflexivity|].
  exact (load_dataset_labels (λ _, Ok two_epoch_log) "metrics.csv" ["loss"]
           (Some ["fly"]) true _ eq_refl).
Defined.

Lemma split_cells_length (s : string) (ms : list string) (rows : list Series) :
  s = "val" ∨ s = "train" →
  length (filter (λ c, src_split c = s) (wide_entries false ms rows))
  = (length rows * length ms)%nat.
Proof.
  intros Hs. unfold wide_entries. induction rows as [|row rows IH]; [done|].
  rewrite bind_cons, filter_app, length_app, IH. simpl. f_equal.
  unfold row_entries. rewrite filter_app, length_app.
  assert (Hcount : ∀ (s' prefix : string) (l : list string),
    length (filter (λ c, src_split c = s)
      ((λ m, {| src_row := row; src_split := s'; src_prefix := prefix;
                src_metric := m |}) <$> l))
    = if decide (s' = s) then length l else 0%nat).
  { intros s' prefix l. induction l as [|m l IHl]; [by case_decide|].
    rewrite fmap_cons, filter_cons. cbn [src_split].
    destruct (decide (s' = s)) as [He|He]; cbn [length]; rewrite IHl;
      try case_decide; done. }
  rewrite !Hcount. destruct Hs as [-> | ->].
  - rewrite decide_True, decide_False by done. lia.
  - rewrite decide_False, decide_True by done. lia.
Qed.

Lemma load_split_tags (read_csv : string → result DataFrame)
    (metric_file : string) (metrics_list : list string)
    (expt_ids : option (list string)) (test : bool) (out : list long_row) :
  load_metrics_csv_as_df read_csv metric_file metrics_list expt_ids test = Ok out →
  Forall (λ r, if test then dtype r = "test"
               else dtype r = "val" ∨ dtype r = "train") out.
Proof.
  intros (df & Hdf & _ & _ & Hrecs)%load_Ok.
  apply Forall_forall. intros r Hr. apply list_elem_of_lookup in Hr as (i & Hi).
  destruct (Forall2_lookup_l _ _ _ _ _ Hrecs Hi) as (c & Hc & Hrc).
  apply record_of_made_from in Hrc as (_ & _ & -> & _).
  apply list_elem_of_lookup_2 in Hc. unfold wide_entries in Hc.
  apply list_elem_of_bind in Hc as (row & Hc & _). unfold row_entries in Hc.
  destruct test; rewrite ?elem_of_app, !list_elem_of_fmap in Hc.
  - by destruct Hc as (m & -> & _).
  - destruct Hc as [(m & -> & _)|(m & -> & _)]; [by left|by right].
Qed.

(** X18. The split tags of the returned table: in test mode every row is
    tagged "test"; otherwise every row is tagged "val" or "train", and the
    table holds as many "val" rows as "train" rows, one of each per source
    row and metric. *)
Theorem load_dtypes (read_csv : string → result DataFrame)
    (metric_file : string) (metrics_list : list string)
    (expt_ids : option (list string)) (test : bool) (out : list long_row) :
  load_metrics_csv_as_df read_csv metric_file metrics_list expt_ids test = Ok out →
  ∃ metrics, read_csv metric_file = Ok metrics ∧
    if test then Forall (λ r, dtype r = "test") out
    else Forall (λ r, dtype r = "val" ∨ dtype r = "train") out
         ∧ length (with_dtype "val" out)
           = (length (df_rows metrics) * length metrics_list)%nat
         ∧ length (with_dtype "train" out)
           = (length (df_rows metrics) * length metrics_list)%nat.
Proof.
  intros Hload. pose proof (load_split_tags _ _ _ _ _ _ Hload) as Htags.
  apply load_Ok in Hload as (df & Hdf & _ & _ & Hrecs). exists df. split; [done|].
  assert (Hsplit : ∀ r c, record_of expt_ids c = Ok r → dtype r = src_split c).
  { intros r c Hrc. by apply record_of_made_from in Hrc as (_ & _ & ? & _). }
  assert (Hlen : ∀ s, test = false → s = "val" ∨ s = "train" →
            length (with_dtype s out)
            = (length (df_rows df) * length metrics_list)%nat).
  { intros s -> Hs. unfold with_dtype.
    rewrite <- iterrows_length, <- (split_cells_length s) by done.
    eapply Forall2_length.
    apply (Forall2_filter (λ r c, record_of expt_ids c = Ok r)
             (λ r, dtype r = s) (λ c, src_split c = s)); [|done].
    intros r c Hrc. by rewrite (Hsplit r c Hrc). }
  destruct test; [done|]. split_and!; [done|apply Hlen; auto..].
Qed.

Lemma load_dtypes_witness :
  let read_csv := λ _ : string, Ok two_epoch_log in
  let out :=
    [ {| dataset := PyFloat (Real 0); epoch := Real 0; dtype := "test";
         loss := "loss"; val := Real (1 # 2) |};
      {| dataset := PyFloat (Real 0); epoch := Real 1; dtype := "test";
         loss := "loss"; val := Real (1 # 4) |} ] in
  load_metrics_csv_as_df read_csv "metrics.csv" ["loss"] None true = Ok out
  ∧ ∃ metrics, read_csv "metrics.csv" = Ok metrics
      ∧ Forall (λ r, dtype r = "test") out.
Proof.
  split; [reflexivity|].
  exact (load_dtypes (λ _, Ok two_epoch_log) "metrics.csv" ["loss"] None true _ eq_refl).
Defined.

Lemma load_needs_columns (read_csv : string → result DataFrame)
    (metric_file : string) (metrics_list : list string)
    (expt_ids : option (list string)) (test : bool)
    (metrics : DataFrame) (out : list long_row) (metric prefix : string) :
  read_csv metric_file = Ok metrics →
  load_metrics_csv_as_df read_csv metric_file metrics_list expt_ids test = Ok out →
  metric ∈ metrics_list →
  prefix ∈ (if test then ["test_"] else ["val_"; "tr_"]) →
  (prefix +:+ metric) ∈ df_columns metrics.
Proof.
  intros Hdf Hload Hm Hprefix.
  apply load_Ok in Hload as (df & Hdf' & _ & Hne & Hrecs).
  assert (df = metrics) as -> by congruence.
  destruct (iterrows metrics) as [|row rows] eqn:Hrows.
  { apply Forall2_nil_inv_r in Hrecs. done. }
  assert (Hrow : row ∈ iterrows metrics) by (rewrite Hrows; by left).
  assert (∃ split, ({| src_row := row; src_split := split; src_prefix := prefix;
                       src_metric := metric |})
                   ∈ wide_entries test metrics_list (row :: rows))
    as (split & Hcell).
  { unfold wide_entries. rewrite bind_cons. unfold row_entries. destruct test.
    - apply list_elem_of_singleton in Hprefix as ->. exists "test".
      apply elem_of_app. left. apply list_elem_of_fmap. eauto.
    - apply elem_of_cons in Hprefix as [->|Hprefix].
      + exists "val". rewrite !elem_of_app. left. left.
        apply list_elem_of_fmap. eauto.
      + apply list_elem_of_singleton in Hprefix as ->. exists "train".
        rewrite !elem_of_app. left. right. apply list_elem_of_fmap. eauto. }
  apply list_elem_of_lookup in Hcell as (i & Hi).
  destruct (Forall2_lookup_r _ _ _ _ _ Hrecs Hi) as (r & _ & Hr).
  apply record_of_Ok in Hr as (ds & e & _ & _ & v & Hv & _). cbn in Hv.
  rewrite <- (iterrows_index metrics row Hrow). apply loc_Ok. eauto.
Qed.

(** ** [plot_training_curves] *)

Section PlotProperties.

Variable read_csv : string → result DataFrame.
Variable facet_grid : list long_row → option string → result unit.
Variable make_dir_if_not_exists : string → result unit.
Variable savefig : string → string → result unit.

Ltac not_a_call H :=
  repeat (apply elem_of_cons in H as [H|H]; [try discriminate H|]);
  try (by apply elem_of_nil in H).

(** What a run does once the loader has returned: it makes the calls of a
    complete run up to the first one that raises. *)
Lemma plot_after_load (metrics_file split : string) (expt_ids : option (list string))
    (save_file : option string) (format : string) :
  let t := plot_training_curves read_csv facet_grid make_dir_if_not_exists savefig
             metrics_file split expt_ids save_file format in
  match load_metrics_csv_as_df read_csv metrics_file plot_metrics_list expt_ids false with
  | Raise e => t = Traced [] (Raise e)
  | Ok df =>
      let data := filter (λ r, queried split r = true) df in
      let hue := hue_of expt_ids in
      calls t `prefix_of` full_calls data hue save_file format
      ∧ (outcome t = Ok () ↔ calls t = full_calls data hue save_file format)
      ∧ [SetStyle "white"; SetContext "talk"; FacetGrid data hue] `prefix_of` calls t
      ∧ (Close ∈ calls t → outcome t = Ok ())
      ∧ (∀ file fmt, SaveFig file fmt ∈ calls t →
           ∃ s, save_file = Some s ∧ file = s +:+ "." +:+ format ∧ fmt = format
                ∧ facet_grid data hue = Ok () ∧ make_dir_if_not_exists s = Ok ())
  end.
Proof.
  unfold plot_training_curves.
  destruct (load_metrics_csv_as_df _ _ _ _ _) as [df|e]; [|done].
  cbv zeta.
  unfold full_calls, mbind, traced_bind, pure_step, invoke, pd_concat_frames.
  cbn [outcome calls app concat]. rewrite app_nil_r.
  destruct (facet_grid _ _) as [[]|e1] eqn:Hfacet; cbn [outcome calls app].
  2:{ split_and!.
      - by exists (match save_file with
                   | Some s => [MakeDir s; SaveFig (s +:+ "." +:+ format) format]
                   | None => []
                   end ++ [Close]).
      - split; [done|]. intros H. injection H as H.
        destruct save_file; discriminate H.
      - done.
      - intros H. not_a_call H.
      - intros file fmt H. not_a_call H. }
  destruct save_file as [s|]; cbn [outcome calls app mret traced_ret].
  - destruct (make_dir_if_not_exists s) as [[]|e2] eqn:Hdir; cbn [outcome calls app].
    2:{ split_and!.
        - by exists [SaveFig (s +:+ "." +:+ format) format; Close].
        - split; [done|intros [=]].
        - by exists [MakeDir s].
        - intros H. not_a_call H.
        - intros file fmt H. not_a_call H. }
    destruct (savefig _ _) as [[]|e3]; cbn [outcome calls app].
    + split_and!; [done|done| |done|].
      * by exists [MakeDir s; SaveFig (s +:+ "." +:+ format) format; Close].
      * intros file fmt H. not_a_call H. injection H as -> ->. by exists s.
    + split_and!.
      * by exists [Close].
      * split; [done|intros [=]].
      * by exists [MakeDir s; SaveFig (s +:+ "." +:+ format) format].
      * intros H. not_a_call H.
      * intros file fmt H. not_a_call H. injection H as -> ->. by exists s.
  - split_and!; [done|done|by exists [Close]|done|].
    intros file fmt H. not_a_call H.
Qed.

(** X19. Once the metrics are loaded, the library calls are made in a fixed
    order (style, context, grid of panels, then directory and image when a
    save file is given, then close) and stop at the first call that
    raises.  The figure is closed exactly when the whole call returns
    normally, and an image is written only under the name
    [save_file.format], after the grid was built and the directory
    created. *)
Theorem plot_calls_in_order (metrics_file split : string)
    (expt_ids : option (list string)) (save_file : option string)
    (format : string) (df : list long_row) :
  load_metrics_csv_as_df read_csv metrics_file plot_metrics_list expt_ids false = Ok df →
  let t := plot_training_curves read_csv facet_grid make_dir_if_not_exists savefig
             metrics_file split expt_ids save_file format in
  let data := filter (λ r, queried split r = true) df in
  let hue := hue_of expt_ids in
  calls t `prefix_of` full_calls data hue save_file format
  ∧ (outcome t = Ok () ↔ calls t = full_calls data hue save_file format)
  ∧ (Close ∈ calls t ↔ outcome t = Ok ())
  ∧ (∀ file fmt, SaveFig file fmt ∈ calls t →
       ∃ s, save_file = Some s ∧ file = s +:+ "." +:+ format ∧ fmt = format
            ∧ facet_grid data hue = Ok () ∧ make_dir_if_not_exists s = Ok ()).
Proof.
  intros Hload.
  pose proof (plot_after_load metrics_file split expt_ids save_file format) as H.
  rewrite Hload in H. cbv zeta in *. destruct H as (Hpre & Hok & _ & Hclose & Hsave).
  split_and!; try done. split; [done|]. intros Hout. apply Hok in Hout.
  rewrite Hout. unfold full_calls. rewrite !elem_of_app. right. right. by left.
Qed.

(** X20. The rows handed to the grid of panels all have an epoch above 10, a
    value that is not missing and the requested split; since the metrics
    are always loaded in non-test mode, asking for a split other than
    "train" or "val" plots no row.  The runs are coloured by dataset
    exactly when more than one experiment id is given. *)
Theorem plot_data (metrics_file split : string)
    (expt_ids : option (list string)) (save_file : option string)
    (format : string) (df : list long_row) :
  load_metrics_csv_as_df read_csv metrics_file plot_metrics_list expt_ids false = Ok df →
  let t := plot_training_curves read_csv facet_grid make_dir_if_not_exists savefig
             metrics_file split expt_ids save_file format in
  ∃ data hue,
    [SetStyle "white"; SetContext "talk"; FacetGrid data hue] `prefix_of` calls t
    ∧ (∀ r, r ∈ data ↔ r ∈ df ∧ float_gt (epoch r) (Real 10) = true ∧ val r ≠ NaN
                        ∧ dtype r = split)
    ∧ (split ≠ "val" → split ≠ "train" → data = [])
    ∧ (hue = Some "dataset" ↔ ∃ ids, expt_ids = Some ids ∧ (1 < length ids)%nat)
    ∧ (hue = None ∨ hue = Some "dataset").
Proof.
  intros Hload.
  pose proof (plot_after_load metrics_file split expt_ids save_file format) as H.
  rewrite Hload in H. cbv zeta in *. destruct H as (_ & _ & Hpre & _).
  eexists _, _. split; [exact Hpre|].
  assert (Hq : ∀ r, queried split r = true
                    ↔ float_gt (epoch r) (Real 10) = true ∧ val r ≠ NaN ∧ dtype r = split).
  { intros r. unfold queried. rewrite !andb_true_iff, negb_true_iff, bool_decide_eq_true.
    destruct (val r); simpl; intuition congruence. }
  split_and!.
  - intros r. rewrite list_elem_of_filter, Hq. tauto.
  - intros Hval Htrain. apply filter_none.
    pose proof (load_split_tags _ _ _ _ _ _ Hload) as Htags.
    eapply Forall_impl; [exact Htags|]. intros r [Hr|Hr] (_ & _ & Hs)%Hq; congruence.
  - unfold hue_of. destruct expt_ids as [ids|].
    + case_decide; split; try done; eauto.
      * intros (ids' & [= <-] & Hlen). lia.
    + split; [done|]. by intros (ids & [=] & _).
  - unfold hue_of. destruct expt_ids; [case_decide|]; auto.
Qed.

(** X21. The five plotted metrics are fixed: when the table lacks the
    [val_] or [tr_] column of one of them, the call raises before any
    library call is made (nothing is drawn, created or saved). *)
Theorem plot_missing_column (metrics_file split : string)
    (expt_ids : option (list string)) (save_file : option string)
    (format : string) (metrics : DataFrame) (metric prefix : string) :
  read_csv metrics_file = Ok metrics →
  metric ∈ plot_metrics_list →
  prefix ∈ ["val_"; "tr_"] →
  (prefix +:+ metric) ∉ df_columns metrics →
  let t := plot_training_curves read_csv facet_grid make_dir_if_not_exists savefig
             metrics_file split expt_ids save_file format in
  calls t = [] ∧ raises (outcome t).
Proof.
  intros Hdf Hm Hprefix Hmissing.
  pose proof (plot_after_load metrics_file split expt_ids save_file format) as H.
  destruct (load_metrics_csv_as_df read_csv metrics_file plot_metrics_list expt_ids false)
    as [df|e] eqn:Hload.
  - destruct Hmissing.
    by apply (load_needs_columns read_csv metrics_file plot_metrics_list expt_ids
                false metrics df metric prefix).
  - cbv zeta in *. rewrite H. split; [done|]. by exists e.
Qed.

End PlotProperties.

Lemma plot_calls_in_order_witness :
  let read_csv := λ _ : string, Ok plotted_log in
  let facet_grid := λ (_ : list long_row) (_ : option string), Ok () in
  let make_dir := λ _ : string, Ok () in
  let savefig := λ _ _ : string, Raise ValueError in
  let t := plot_training_curves read_csv facet_grid make_dir savefig
             "metrics.csv" "val" None (Some "curves") "pdf" in
  ∃ df,
    load_metrics_csv_as_df read_csv "metrics.csv" plot_metrics_list None false = Ok df
    ∧ calls t `prefix_of`
        full_calls (filter (λ r, queried "val" r = true) df) (hue_of None)
          (Some "curves") "pdf"
    ∧ (outcome t = Ok ()
       ↔ calls t = full_calls (filter (λ r, queried "val" r = true) df) (hue_of None)
                     (Some "curves") "pdf")
    ∧ (Close ∈ calls t ↔ outcome t = Ok ())
    ∧ (∀ file fmt, SaveFig file fmt ∈ calls t →
         ∃ s, Some "curves" = Some s ∧ file = s +:+ "." +:+ "pdf" ∧ fmt = "pdf"
              ∧ facet_grid (filter (λ r, queried "val" r = true) df) (hue_of None) = Ok ()
              ∧ make_dir s = Ok ()).
Proof.
  eexists. split; [vm_compute; reflexivity|].
  exact (plot_calls_in_order (λ _, Ok plotted_log) (λ _ _, Ok ()) (λ _, Ok ())
           (λ _ _, Raise ValueError) "metrics.csv" "val" None (Some "curves") "pdf"
           _ eq_refl).
Defined.

Lemma plot_data_witness :
  let read_csv := λ _ : string, Ok plotted_log in
  let facet_grid := λ (_ : list long_row) (_ : option string), Ok () in
  let make_dir := λ _ : string, Ok () in
  let savefig := λ _ _ : string, Ok () in
  let t := plot_training_curves read_csv facet_grid make_dir savefig
             "metrics.csv" "val" (Some ["a"; "b"]) None "pdf" in
  ∃ df,
    load_metrics_csv_as_df read_csv "metrics.csv" plot_metrics_list
      (Some ["a"; "b"]) false = Ok df
    ∧ ∃ data hue,
        [SetStyle "white"; SetContext "talk"; FacetGrid data hue] `prefix_of` calls t
        ∧ (∀ r, r ∈ data ↔ r ∈ df ∧ float_gt (epoch r) (Real 10) = true
                            ∧ val r ≠ NaN ∧ dtype r = "val")
        ∧ ("val" ≠ "val" → "val" ≠ "train" → data = [])
        ∧ (hue = Some "dataset"
           ↔ ∃ ids, Some ["a"; "b"] = Some ids ∧ (1 < length ids)%nat)
        ∧ (hue = None ∨ hue = Some "dataset").
Proof.
  eexists. split; [vm_compute; reflexivity|].
  exact (plot_data (λ _, Ok plotted_log) (λ _ _, Ok ()) (λ _, Ok ()) (λ _ _, Ok ())
           "metrics.csv" "val" (Some ["a"; "b"]) None "pdf" _ eq_refl).
Defined.

Lemma plot_missing_column_witness :
  let read_csv := λ _ : string, Ok three_epoch_log in
  let facet_grid := λ (_ : list long_row) (_ : option string), Ok () in
  let make_dir := λ _ : string, Ok () in
  let savefig := λ _ _ : string, Ok () in
  let t := plot_training_curves read_csv facet_grid make_dir savefig
             "metrics.csv" "val" None (Some "curves") "pdf" in
  read_csv "metrics.csv" = Ok three_epoch_log
  ∧ "loss_weak" ∈ plot_metrics_list
  ∧ "val_" ∈ ["val_"; "tr_"]
  ∧ (("val_" +:+ "loss_weak") ∉ df_columns three_epoch_log)
  ∧ calls t = [] ∧ raises (outcome t).
Proof.
  assert (H1 : "loss_weak" ∈ plot_metrics_list) by (right; by left).
  assert (H2 : "val_" ∈ ["val_"; "tr_"]) by (by left).
  assert (H3 : ("val_" +:+ "loss_weak") ∉ df_columns three_epoch_log).
  { intros H. vm_compute in H.
    repeat (apply elem_of_cons in H as [H|H]; [discriminate H|]).
    by apply elem_of_nil in H. }
  split; [reflexivity|]. split; [exact H1|]. split; [exact H2|]. split; [exact H3|].
  exact (plot_missing_column (λ _, Ok three_epoch_log) (λ _ _, Ok ()) (λ _, Ok ())
           (λ _ _, Ok ()) "metrics.csv" "val" None (Some "curves") "pdf"
           three_epoch_log "loss_weak" "val_" eq_refl H1 H2 H3).
Defined.

(** On the two-epoch log with all ten columns, plotting the validation
    curves hands the grid the four validation values of epoch 11 that are
    not missing, and closes the figure. *)
Example plot_plotted_log :
  plot_training_curves (λ _, Ok plotted_log) (λ _ _, Ok ()) (λ _, Ok ()) (λ _ _, Ok ())
    "metrics.csv" "val" None None "pdf"
  = Traced
      [ SetStyle "white"; SetContext "talk";
        FacetGrid
          [ {| dataset := PyStr "all"; epoch := Real 11; dtype := "val";
               loss := "loss"; val := Real 7 |};
            {| dataset := PyStr "all"; epoch := Real 11; dtype := "val";
               loss := "loss_strong"; val := Real 3 |};
            {| dataset := PyStr "all"; epoch := Real 11; dtype := "val";
               loss := "loss_pred"; val := Real 1 |};
            {| dataset := PyStr "all"; epoch := Real 11; dtype := "val";
               loss := "fc"; val := Real (1 # 2) |} ] None;
        Close ]
      (Ok ()).
Proof. by vm_compute. Qed.
